(** * Notification grouping of the ActivityPub admin app

    A shallow embedding of the data shaping done by the notifications view
    (de-duplication, viewer filters, [groupActivities], badge and description),
    followed by the properties of it that the specification states. *)

From Stdlib Require Import String Ascii List Bool Arith NArith Lia Sorting.Sorted.
From Stdlib Require Import Sorting.Permutation Numbers.DecimalString.
Import ListNotations.
Open Scope string_scope.
Open Scope list_scope.

(** ** JavaScript values used by the view *)

(** A property holding a string that may be missing: [None] is [undefined]. *)
Definition jsString := option string.

(** [x === y] on such values. *)
Definition strictEq (x y : jsString) : bool :=
  match x, y with
  | Some a, Some b => String.eqb a b
  | None, None => true
  | _, _ => false
  end.

(** Truthiness: [undefined] and the empty string are falsy. *)
Definition truthy (x : jsString) : bool :=
  match x with
  | Some s => negb (String.eqb s EmptyString)
  | None => false
  end.

(** The text a value contributes to a template literal. *)
Definition toText (x : jsString) : string :=
  match x with
  | Some s => s
  | None => "undefined"
  end.

(** [x || ''] *)
Definition orEmpty (x : jsString) : string :=
  match x with
  | Some s => s
  | None => EmptyString
  end.

(** Outcome of a computation that may raise a [TypeError] (reading a property
    of [undefined]). *)
Inductive js (A : Type) : Type :=
| Ok (a : A)
| TypeError.

Arguments Ok {A} a.
Arguments TypeError {A}.

Definition bind {A B : Type} (m : js A) (f : A -> js B) : js B :=
  match m with
  | Ok a => f a
  | TypeError => TypeError
  end.

Notation "x <- m ;; k" := (bind m (fun x => k))
  (at level 61, m at next level, right associativity).

(** [Array.prototype.forEach] with a body that updates a local state. *)
Fixpoint forEach {A S : Type} (body : S -> A -> js S) (l : list A) (s : S) : js S :=
  match l with
  | [] => Ok s
  | a :: l' => s' <- body s a ;; forEach body l' s'
  end.

(** [Array.prototype.find]: the callback may throw. *)
Fixpoint find {A : Type} (cb : A -> js bool) (l : list A) : js (option A) :=
  match l with
  | [] => Ok None
  | a :: l' => b <- cb a ;; if b then Ok (Some a) else find cb l'
  end.

(** [Array.prototype.flatMap]. *)
Fixpoint flatMap {A B : Type} (f : A -> js (list B)) (l : list A) : js (list B) :=
  match l with
  | [] => Ok []
  | a :: l' => ys <- f a ;; zs <- flatMap f l' ;; Ok (ys ++ zs)
  end.

(** [Array.prototype.findIndex], counting from [i]; [None] stands for [-1]. *)
Fixpoint findIndexFrom {A : Type} (p : A -> bool) (l : list A) (i : nat) : option nat :=
  match l with
  | [] => None
  | a :: l' => if p a then Some i else findIndexFrom p l' (S i)
  end.

Definition findIndex {A : Type} (p : A -> bool) (l : list A) : option nat :=
  findIndexFrom p l 0.

(** [index === j] where [j] is the result of [findIndex]. *)
Definition indexIs (index : nat) (j : option nat) : bool :=
  match j with
  | Some n => Nat.eqb index n
  | None => false
  end.

(** [Array.prototype.filter] with the [(element, index)] callback. *)
Fixpoint filterFrom {A : Type} (p : A -> nat -> bool) (l : list A) (i : nat) : list A :=
  match l with
  | [] => []
  | a :: l' => if p a i then a :: filterFrom p l' (S i) else filterFrom p l' (S i)
  end.

Definition filterIndexed {A : Type} (p : A -> nat -> bool) (l : list A) : list A :=
  filterFrom p l 0.

(** ** Plain objects used as string-keyed maps

    Own properties are kept in creation order.  [Object.values] lists the
    array-index keys first, in ascending numeric order, then the other string
    keys in creation order. *)
Module JsObject.

Definition t (V : Type) := list (string * V).

Definition empty {V : Type} : t V := [].

Fixpoint get {V : Type} (k : string) (o : t V) : option V :=
  match o with
  | [] => None
  | (k', v) :: o' => if String.eqb k' k then Some v else get k o'
  end.

(** Names a lookup on a plain object finds on [Object.prototype] when no
    own property has them.  [get] reads own properties only: the keys of
    this program never bear one of these names. *)
Definition inherited : list string :=
  ["constructor"; "hasOwnProperty"; "isPrototypeOf"; "propertyIsEnumerable";
   "toLocaleString"; "toString"; "valueOf"; "__defineGetter__";
   "__defineSetter__"; "__lookupGetter__"; "__lookupSetter__"; "__proto__"].

(** Assignment keeps the position of an existing property and appends a
    new one. *)
Fixpoint set {V : Type} (k : string) (v : V) (o : t V) : t V :=
  match o with
  | [] => [(k, v)]
  | (k', v') :: o' =>
      if String.eqb k' k then (k', v) :: o' else (k', v') :: set k v o'
  end.

Definition isDigit (c : ascii) : bool :=
  (48 <=? nat_of_ascii c)%nat && (nat_of_ascii c <=? 57)%nat.

Fixpoint digits (s : string) (acc : N) : option N :=
  match s with
  | EmptyString => Some acc
  | String c s' =>
      if isDigit c then digits s' (10 * acc + (N_of_ascii c - 48))%N else None
  end.

(** A canonical numeric string below [2^32 - 1]. *)
Definition isArrayIndex (k : string) : bool :=
  match k with
  | EmptyString => false
  | String c rest =>
      match digits k 0 with
      | Some n =>
          (negb (Ascii.eqb c "0") || String.eqb rest EmptyString) && (n <? 4294967295)%N
      | None => false
      end
  end.

Definition indexValue (k : string) : N :=
  match digits k 0 with
  | Some n => n
  | None => 0%N
  end.

Fixpoint insertSorted {V : Type} (e : string * V) (o : t V) : t V :=
  match o with
  | [] => [e]
  | e' :: o' =>
      if (indexValue (fst e) <=? indexValue (fst e'))%N
      then e :: e' :: o'
      else e' :: insertSorted e o'
  end.

Definition ascending {V : Type} (o : t V) : t V :=
  fold_right insertSorted [] o.

Definition ownProperties {V : Type} (o : t V) : t V :=
  ascending (filter (fun e => isArrayIndex (fst e)) o)
    ++ filter (fun e => negb (isArrayIndex (fst e))) o.

Definition keys {V : Type} (o : t V) : list string := map fst (ownProperties o).

Definition values {V : Type} (o : t V) : list V := map snd (ownProperties o).

End JsObject.

(** ** Data model *)

Record ActorProperties := {
  actor_id : jsString;
  actor_name : jsString
}.

(** The object a reply answers, when the feed embeds it. *)
Record InReplyToObject := {
  inReplyTo_type : jsString;
  inReplyTo_name : jsString;
  inReplyTo_content : jsString;
  inReplyTo_attributedTo : option ActorProperties
}.

(** [inReplyTo] is missing, a bare reference (a string) or a full object. *)
Inductive InReplyTo :=
| NoReply
| ReplyReference (url : string)
| ReplyObject (o : InReplyToObject).

(** [attributedTo] is read only through [?.id]; anything without an [id]
    property (missing, a string, an array) behaves as [None]. *)
Record ObjectProperties := {
  object_id : jsString;
  object_type : jsString;
  object_name : jsString;
  object_content : jsString;
  object_attributedTo : option ActorProperties;
  object_inReplyTo : InReplyTo
}.

Record Activity := {
  id : jsString;
  type : string;
  actor : option ActorProperties;
  object : option ObjectProperties
}.

Record GroupedActivity := {
  group_type : string;
  actors : list (option ActorProperties);
  group_object : option ObjectProperties;
  group_id : jsString
}.

(** [enum ACTIVITY_TYPE] *)
Definition CREATE : string := "Create".
Definition LIKE : string := "Like".
Definition FOLLOW : string := "Follow".
Definition REPOST : string := "Announce".

(** Optional chains of the source. *)

(** [activity.object?.id] *)
Definition objectId (activity : Activity) : jsString :=
  match object activity with
  | Some o => object_id o
  | None => None
  end.

(** [activity.actor?.id] *)
Definition actorId (activity : Activity) : jsString :=
  match actor activity with
  | Some a => actor_id a
  | None => None
  end.

(** [activity.object?.attributedTo?.id] *)
Definition attributedToId (activity : Activity) : jsString :=
  match object activity with
  | Some o =>
      match object_attributedTo o with
      | Some a => actor_id a
      | None => None
      end
  | None => None
  end.

(** [activity.object?.inReplyTo?.attributedTo?.id]; a string has no
    [attributedTo] property. *)
Definition inReplyToAttributedToId (activity : Activity) : jsString :=
  match object activity with
  | Some o =>
      match object_inReplyTo o with
      | ReplyObject r =>
          match inReplyTo_attributedTo r with
          | Some a => actor_id a
          | None => None
          end
      | ReplyReference _ => None
      | NoReply => None
      end
  | None => None
  end.

(** [userProfile?.id] *)
Definition profileId (userProfile : option ActorProperties) : jsString :=
  match userProfile with
  | Some p => actor_id p
  | None => None
  end.

(** ** groupActivities *)

(** The [switch] that computes [groupKey]; there is no default case, so any
    other type keeps the initial [''] . *)
Definition groupKey (activity : Activity) : string :=
  if String.eqb (type activity) FOLLOW then
    ("follow_" ++ type activity)%string
  else if String.eqb (type activity) LIKE then
    if truthy (objectId activity) then ("like_" ++ toText (objectId activity))%string else EmptyString
  else if String.eqb (type activity) REPOST then
    if truthy (objectId activity) then ("announce_" ++ toText (objectId activity))%string else EmptyString
  else if String.eqb (type activity) CREATE then
    ("create_" ++ toText (id activity))%string
  else EmptyString.

(** The callback [a => a.id === activity.actor.id]: both [a] and
    [activity.actor] are dereferenced. *)
Definition sameActorAs (activity : Activity) (a : option ActorProperties) : js bool :=
  match a with
  | None => TypeError
  | Some a' =>
      match actor activity with
      | None => TypeError
      | Some b => Ok (strictEq (actor_id a') (actor_id b))
      end
  end.

Definition newGroup (activity : Activity) : GroupedActivity :=
  {| group_type := type activity;
     actors := [];
     group_object := object activity;
     group_id := id activity |}.

(** [actors.push(x)] on the group stored in the map. *)
Definition pushActor (g : GroupedActivity) (x : option ActorProperties) : GroupedActivity :=
  {| group_type := group_type g;
     actors := actors g ++ [x];
     group_object := group_object g;
     group_id := group_id g |}.

(** Body of the [forEach]. *)
Definition addActivity (groups : JsObject.t GroupedActivity) (activity : Activity)
  : js (JsObject.t GroupedActivity) :=
  let key := groupKey activity in
  let groups :=
    match JsObject.get key groups with
    | None => JsObject.set key (newGroup activity) groups
    | Some _ => groups
    end in
  match JsObject.get key groups with
  | None => TypeError
  | Some g =>
      found <- find (sameActorAs activity) (actors g) ;;
      match found with
      | Some _ => Ok groups
      | None => Ok (JsObject.set key (pushActor g (actor activity)) groups)
      end
  end.

(** The map [groups] when the loop ends. *)
Definition collectGroups (activities : list Activity) : js (JsObject.t GroupedActivity) :=
  forEach addActivity activities JsObject.empty.

Definition groupActivities (activities : list Activity) : js (list GroupedActivity) :=
  groups <- collectGroups activities ;;
  Ok (JsObject.values groups).

(** ** The notifications view: de-duplication and viewer filters *)

Record Page := {
  data : list Activity
}.

(** [(activity, index, self) => index === self.findIndex(a => a.id === activity.id)] *)
Definition removeDuplicates (self : list Activity) : list Activity :=
  filterIndexed
    (fun activity index =>
       indexIs index (findIndex (fun a => strictEq (id a) (id activity)) self))
    self.

(** Remove our own likes. *)
Definition notOwnLike (userProfile : option ActorProperties) (activity : Activity) : bool :=
  if String.eqb (type activity) LIKE
     && strictEq (actorId activity) (profileId userProfile)
  then false else true.

(** Remove follower likes if they are not for our own posts. *)
Definition likeOfOwnPost (userProfile : option ActorProperties) (activity : Activity) : bool :=
  if String.eqb (type activity) LIKE
     && negb (strictEq (attributedToId activity) (profileId userProfile))
  then false else true.

(** Remove reposts that are not for our own posts. *)
Definition repostOfOwnPost (userProfile : option ActorProperties) (activity : Activity) : bool :=
  if String.eqb (type activity) REPOST
     && negb (strictEq (attributedToId activity) (profileId userProfile))
  then false else true.

(** Remove create activities that are not replies to our own posts. *)
Definition replyToOwnPost (userProfile : option ActorProperties) (activity : Activity) : bool :=
  if String.eqb (type activity) CREATE
     && negb (strictEq (inReplyToAttributedToId activity) (profileId userProfile))
  then false else true.

(** Remove our own create activities. *)
Definition notOwnCreate (userProfile : option ActorProperties) (activity : Activity) : bool :=
  if String.eqb (type activity) CREATE
     && strictEq (actorId activity) (profileId userProfile)
  then false else true.

(** The five filters that follow the de-duplication, in source order. *)
Definition contentFilters (userProfile : option ActorProperties) (l : list Activity)
  : list Activity :=
  filter (notOwnCreate userProfile)
    (filter (replyToOwnPost userProfile)
       (filter (repostOfOwnPost userProfile)
          (filter (likeOfOwnPost userProfile)
             (filter (notOwnLike userProfile) l)))).

(** The constant [filtered] of the [flatMap] callback. *)
Definition filtered (userProfile : option ActorProperties) (page : Page) : list Activity :=
  contentFilters userProfile (removeDuplicates (data page)).

(** [data.pages.flatMap(page => groupActivities(filtered))] *)
Definition groupPages (userProfile : option ActorProperties) (pages : list Page)
  : js (list GroupedActivity) :=
  flatMap (fun page => groupActivities (filtered userProfile page)) pages.

(** An entry of [groupedActivities]: a group, or the object [{actors: [{}]}]
    that fills the list while there is no data. *)
Inductive Entry :=
| Group (g : GroupedActivity)
| Skeleton.

(** [data?.pages.flatMap(...) ?? Array(5).fill({actors: [{}]})] *)
Definition groupedActivities (userProfile : option ActorProperties)
  (queryData : option (list Page)) : js (list Entry) :=
  match queryData with
  | Some pages => gs <- groupPages userProfile pages ;; Ok (map Group gs)
  | None => Ok (repeat Skeleton 5)
  end.

(** ** Badge and description *)

(** [NotificationType] is a union of string literals; a [switch] without a
    matching case returns [undefined]. *)
Definition getActivityBadge (activity : GroupedActivity) : jsString :=
  if String.eqb (group_type activity) CREATE then Some "reply"
  else if String.eqb (group_type activity) FOLLOW then Some "follow"
  else if String.eqb (group_type activity) LIKE then Some "like"
  else if String.eqb (group_type activity) REPOST then Some "repost"
  else None.

(** Rendered children of a fragment: plain text and [<span>] elements. *)
Inductive node :=
| Text (s : string)
| Span (className : string) (s : string).

Definition nodeText (n : node) : string :=
  match n with
  | Text s => s
  | Span _ s => s
  end.

(** What the reader sees. *)
Definition textContent (l : list node) : string :=
  fold_right (fun n acc => (nodeText n ++ acc)%string) EmptyString l.

(** Content of the [font-semibold] span that closes a description. *)
Definition excerpt (l : list node) : option string :=
  match rev l with
  | Span className s :: _ =>
      if String.eqb className "font-semibold" then Some s else None
  | _ => None
  end.

Definition actorClass : string := "cursor-pointer font-semibold hover:underline".

(** [[firstActor, secondActor, ...otherActors] = group.actors]; an element
    the array does not have is [undefined]. *)
Definition firstActor (group : GroupedActivity) : option ActorProperties :=
  match actors group with
  | a :: _ => a
  | [] => None
  end.

Definition secondActor (group : GroupedActivity) : option ActorProperties :=
  match actors group with
  | _ :: a :: _ => a
  | _ => None
  end.

Definition otherActors (group : GroupedActivity) : list (option ActorProperties) :=
  match actors group with
  | _ :: _ :: l => l
  | _ => []
  end.

(** The fragment [actorText]; [firstActor.name] is read unguarded. *)
Definition actorText (group : GroupedActivity) : js (list node) :=
  let hasOthers := (0 <? length (otherActors group))%nat in
  match firstActor group with
  | None => TypeError
  | Some first =>
      Ok ([Span actorClass (orEmpty (actor_name first))]
          ++ match secondActor group with
             | Some second =>
                 [Text (if hasOthers then ", " else " and ");
                  Span actorClass (orEmpty (actor_name second))]
             | None => []
             end
          ++ (if hasOthers then [Text " and others"] else []))
  end.

(** [group.object?.type === 'Article' ? 'post' : 'note'] *)
Definition postOrNote (group : GroupedActivity) : string :=
  match group_object group with
  | Some o => if strictEq (object_type o) (Some "Article") then "post" else "note"
  | None => "note"
  end.

(** [group.object?.name || ''] *)
Definition objectName (group : GroupedActivity) : string :=
  match group_object group with
  | Some o => orEmpty (object_name o)
  | None => EmptyString
  end.

(** [group.object?.inReplyTo && typeof group.object?.inReplyTo !== 'string'] *)
Definition fullInReplyTo (group : GroupedActivity) : option InReplyToObject :=
  match group_object group with
  | Some o =>
      match object_inReplyTo o with
      | ReplyObject r => Some r
      | ReplyReference _ => None
      | NoReply => None
      end
  | None => None
  end.

(** Modelled from the spec: [truncate] is imported from [@utils/truncate],
    which is not among the sources; the specification says the text is
    "truncated to 80 characters", so the model keeps the first [maxLength]
    characters. *)
Definition truncate (text : string) (maxLength : nat) : string :=
  substring 0 maxLength text.

Section Description.

(** [stripHtml] is imported from [@src/utils/content-formatters], which is
    not among the sources; the description is parametric in it. *)
Variable stripHtml : string -> string.

(** The text quoted in a reply description. *)
Definition replyContent (r : InReplyToObject) : string :=
  let content := stripHtml (orEmpty (inReplyTo_content r)) in
  if truthy (inReplyTo_name r) then stripHtml (toText (inReplyTo_name r))
  else content.

Definition NotificationGroupDescription (group : GroupedActivity) : js (list node) :=
  actorText <- actorText group ;;
  if String.eqb (group_type group) FOLLOW then
    Ok (actorText ++ [Text " started following you"])
  else if String.eqb (group_type group) LIKE then
    Ok (actorText
        ++ [Text " liked your "; Text (postOrNote group); Text " ";
            Span "font-semibold" (objectName group)])
  else if String.eqb (group_type group) REPOST then
    Ok (actorText
        ++ [Text " reposted your "; Text (postOrNote group); Text " ";
            Span "font-semibold" (objectName group)])
  else if String.eqb (group_type group) CREATE then
    match fullInReplyTo group with
    | Some r =>
        Ok (actorText
            ++ [Text " replied to your post ";
                Span "font-semibold" (truncate (replyContent r) 80)])
    | None => Ok []
    end
  else Ok [].

End Description.

(** Modelled from the spec: the source of [stripHtml] is not available; the
    specification says the text is "stripped of markup", so the model drops
    every tag, from a ["<"] to the next [">"]. *)
Fixpoint dropTags (inTag : bool) (s : string) : string :=
  match s with
  | EmptyString => EmptyString
  | String c s' =>
      if inTag then
        if Ascii.eqb c ">" then dropTags false s' else dropTags true s'
      else if Ascii.eqb c "<" then dropTags true s'
      else String c (dropTags false s')
  end.

Definition stripHtml (html : string) : string := dropTags false html.

(** ** Vocabulary of the specification *)

(** Two actors with the same [id]; a missing actor has none to compare. *)
Definition sameActorId (x y : option ActorProperties) : bool :=
  match x, y with
  | Some a, Some b => strictEq (actor_id a) (actor_id b)
  | _, _ => false
  end.

(** The elements of a sequence without those that repeat an earlier one
    (up to [same]), in order of first occurrence. *)
Fixpoint firstOccurrences {A : Type} (same : A -> A -> bool) (l : list A) : list A :=
  match l with
  | [] => []
  | x :: l' => x :: filter (fun y => negb (same x y)) (firstOccurrences same l')
  end.

(** The distinct actors (by id) of a sequence, in order of first occurrence. *)
Definition firstSeenActors (l : list (option ActorProperties)) : list (option ActorProperties) :=
  firstOccurrences sameActorId l.

(** The distinct keys of a sequence, in order of first occurrence. *)
Definition distinctKeys (l : list string) : list string :=
  firstOccurrences String.eqb l.

(** The group seeded by [first] and fed by [members]. *)
Definition groupFrom (first : Activity) (members : list Activity) : GroupedActivity :=
  {| group_type := type first;
     actors := firstSeenActors (map actor members);
     group_object := object first;
     group_id := id first |}.

(** The activities bearing a key, in input order. *)
Definition bearing (k : string) (activities : list Activity) : list Activity :=
  filter (fun a => String.eqb (groupKey a) k) activities.

(** Position of the first activity bearing a key (the length if there is
    none). *)
Fixpoint firstBearing (k : string) (activities : list Activity) : nat :=
  match activities with
  | [] => 0
  | a :: l => if String.eqb (groupKey a) k then 0 else S (firstBearing k l)
  end.

(** What the map [groups] holds once [activities] have been visited: one
    property per distinct key, created in order of first occurrence, whose
    group is seeded by the first activity bearing the key. *)
Definition collected (activities : list Activity) (groups : JsObject.t GroupedActivity)
  : Prop :=
  map fst groups = distinctKeys (map groupKey activities)
  /\ forall k g, JsObject.get k groups = Some g ->
       exists first rest,
         bearing k activities = first :: rest
         /\ g = groupFrom first (first :: rest).

(** The text a reply description quotes: the name of the answered post when
    it has one that is not empty, otherwise its content (nothing when that is
    missing too). *)
Definition quotedText (r : InReplyToObject) : string :=
  match inReplyTo_name r with
  | Some n => if String.eqb n EmptyString then orEmpty (inReplyTo_content r) else n
  | None => orEmpty (inReplyTo_content r)
  end.

(** The first activity of a page with a given id. *)
Definition firstWithId (i : jsString) (l : list Activity) : option Activity :=
  List.find (fun b => strictEq (id b) i) l.

Definition hasActor (activity : Activity) : Prop := actor activity <> None.

(** A reply that names no owner of the post it answers: [object], its
    [inReplyTo] or the [attributedTo] of that is missing, or [inReplyTo] is a
    bare reference. *)
Definition replyOwnerMissing (activity : Activity) : Prop :=
  match object activity with
  | None => True
  | Some o =>
      match object_inReplyTo o with
      | NoReply => True
      | ReplyReference _ => True
      | ReplyObject r => inReplyTo_attributedTo r = None
      end
  end.

(** ** Sample records *)

Definition mkActor (i n : string) : ActorProperties :=
  {| actor_id := Some i; actor_name := Some n |}.

Definition mkNote (i : string) (owner : ActorProperties) : ObjectProperties :=
  {| object_id := Some i; object_type := Some "Note"; object_name := None;
     object_content := None; object_attributedTo := Some owner;
     object_inReplyTo := NoReply |}.

Definition mkFollow (i : string) (a : ActorProperties) : Activity :=
  {| id := Some i; type := FOLLOW; actor := Some a; object := None |}.

Definition mkLike (i : string) (o : ObjectProperties) (a : ActorProperties) : Activity :=
  {| id := Some i; type := LIKE; actor := Some a; object := Some o |}.

Definition mkRepost (i : string) (o : ObjectProperties) (a : ActorProperties) : Activity :=
  {| id := Some i; type := REPOST; actor := Some a; object := Some o |}.

Definition alice : ActorProperties := mkActor "a1" "Alice".
Definition bob : ActorProperties := mkActor "a2" "Bob".
Definition carol : ActorProperties := mkActor "a3" "Carol".
Definition viewer : ActorProperties := mkActor "v" "Viewer".

(** A reply by [a] to a post of [owner]. *)
Definition mkReply (i : string) (a owner : ActorProperties) (name content : jsString)
  : Activity :=
  {| id := Some i; type := CREATE; actor := Some a;
     object :=
       Some {| object_id := Some i; object_type := Some "Note"; object_name := None;
               object_content := Some "thanks"; object_attributedTo := Some a;
               object_inReplyTo :=
                 ReplyObject {| inReplyTo_type := Some "Article";
                                inReplyTo_name := name;
                                inReplyTo_content := content;
                                inReplyTo_attributedTo := Some owner |} |} |}.

Definition followWithoutActor (i : string) : Activity :=
  {| id := Some i; type := FOLLOW; actor := None; object := None |}.

Definition groupOf (ty : string) (l : list ActorProperties)
  (o : option ObjectProperties) (i : string) : GroupedActivity :=
  {| group_type := ty; actors := map Some l; group_object := o; group_id := Some i |}.

(** The group of a reply to a post with the given name and content. *)
Definition replyGroup (name content : jsString) : GroupedActivity :=
  groupOf CREATE [bob] (object (mkReply "5" bob viewer name content)) "5".

Definition longContent : string := string_of_list_ascii (repeat "a"%char 200).

(** The page of the specification: a Follow by A, a Like of X by B, a Follow
    by C. *)
Definition followLikeFollow : list Activity :=
  [mkFollow "1" alice; mkLike "2" (mkNote "x" viewer) bob; mkFollow "3" carol].

(** A Like and an Announce whose object carries the empty string as id. *)
Definition likeOfUnnamed : Activity :=
  {| id := Some "7"; type := LIKE; actor := Some bob;
     object := Some {| object_id := Some EmptyString; object_type := Some "Note";
                       object_name := None; object_content := None;
                       object_attributedTo := Some viewer;
                       object_inReplyTo := NoReply |} |}.

Definition repostOfUnnamed : Activity :=
  {| id := Some "8"; type := REPOST; actor := Some carol;
     object := object likeOfUnnamed |}.

(** The group of the two follows of the specification. *)
Definition aliceAndBob : GroupedActivity := groupOf FOLLOW [alice; bob] None "1".

(** A page with a second Follow that has no actor. *)
Definition pageWithoutActor : Page :=
  {| data := [mkFollow "1" alice; followWithoutActor "2"] |}.

(** ** The rest of the notifications view *)

(** Truthiness of [o[k]] on a plain object that holds booleans: an own
    property gives its value, a name of [Object.prototype] a function or an
    object, anything else [undefined]. *)
Definition reads (k : string) (o : JsObject.t bool) : bool :=
  match JsObject.get k o with
  | Some b => b
  | None => existsb (String.eqb k) JsObject.inherited
  end.

(** The updater of [toggleOpen]: [prev => ({...prev, [groupId]: !prev[groupId]})].
    The spread creates the copied properties in enumeration order. *)
Definition toggleOpen (groupId : string) (prev : JsObject.t bool) : JsObject.t bool :=
  JsObject.set groupId (negb (reads groupId prev)) (JsObject.ownProperties prev).

(** A number inside a template literal. *)
Definition decimal (n : nat) : string := NilEmpty.string_of_uint (Nat.to_uint n).

(** [group.id || `${group.type}_${index}`], the key of a row and of its
    open state. *)
Definition stateKey (group : GroupedActivity) (index : nat) : string :=
  if truthy (group_id group) then toText (group_id group)
  else (group_type group ++ "_" ++ decimal index)%string.

Definition maxAvatars : nat := 5.

(** What a click asks the collaborators of the view to do: [NiceModal.show]
    with the props of [ArticleModal], [toggleOpen], [handleProfileClick]. *)
Inductive Action :=
| ShowArticleModal (activityId : jsString) (object : option ObjectProperties)
    (actor : option ActorProperties) (focusReplies : bool) (width : string)
| ToggleOpen (groupId : string)
| ProfileClick (actor : option ActorProperties)
| NoAction.

(** [group.object?.type === 'Article' ? 'wide' : 'narrow'] *)
Definition widthByType (group : GroupedActivity) : string :=
  match group_object group with
  | Some o => if strictEq (object_type o) (Some "Article") then "wide" else "narrow"
  | None => "narrow"
  end.

(** [typeof group.object?.inReplyTo === 'object' &&
     group.object?.inReplyTo?.type === 'Article' ? 'wide' : 'narrow'] *)
Definition widthByReply (group : GroupedActivity) : string :=
  match fullInReplyTo group with
  | Some r => if strictEq (inReplyTo_type r) (Some "Article") then "wide" else "narrow"
  | None => "narrow"
  end.

(** [handleActivityClick]; [group.object.id] and [group.object.attributedTo]
    are read unguarded.  [focusReplies] is [true] where the prop is passed. *)
Definition handleActivityClick (group : GroupedActivity) (index : nat) : js Action :=
  if String.eqb (group_type group) CREATE then
    match group_object group with
    | None => TypeError
    | Some o =>
        Ok (ShowArticleModal (object_id o) (group_object group) (firstActor group)
              true (widthByReply group))
    end
  else if String.eqb (group_type group) LIKE then
    match group_object group with
    | None => TypeError
    | Some o =>
        Ok (ShowArticleModal (group_id group) (group_object group)
              (object_attributedTo o) false (widthByType group))
    end
  else if String.eqb (group_type group) FOLLOW then
    if (1 <? length (actors group))%nat then Ok (ToggleOpen (stateKey group index))
    else Ok (ProfileClick (firstActor group))
  else if String.eqb (group_type group) REPOST then
    match group_object group with
    | None => TypeError
    | Some o =>
        Ok (ShowArticleModal (group_id group) (group_object group)
              (object_attributedTo o) false (widthByType group))
    end
  else Ok NoAction.

(** [l.map(actor => <... key={actor.id} ... />)]: every element is
    dereferenced. *)
Fixpoint keyed (l : list (option ActorProperties)) : js (list ActorProperties) :=
  match l with
  | [] => Ok []
  | None :: _ => TypeError
  | Some a :: l' => rest <- keyed l' ;; Ok (a :: rest)
  end.

(** [!open && group.actors.slice(0, maxAvatars).map(...)] *)
Definition avatarRow (open : bool) (group : GroupedActivity) : js (list ActorProperties) :=
  if open then Ok [] else keyed (firstn maxAvatars (actors group)).

(** The number in the [+N] badge:
    [group.actors.length > maxAvatars && !open && `+${length - maxAvatars}`]. *)
Definition overflowCount (open : bool) (group : GroupedActivity) : option nat :=
  if (maxAvatars <? length (actors group))%nat && negb open
  then Some (length (actors group) - maxAvatars)
  else None.

(** The number behind the [+] of a row, none when there is no badge. *)
Definition hiddenAvatars (open : bool) (group : GroupedActivity) : nat :=
  match overflowCount open group with
  | Some n => n
  | None => 0
  end.

Definition overflowBadge (open : bool) (group : GroupedActivity) : option string :=
  match overflowCount open group with
  | Some n => Some ("+" ++ decimal n)%string
  | None => None
  end.

(** The chevron button: [group.actors.length > 1]. *)
Definition showsToggleButton (group : GroupedActivity) : bool :=
  (1 <? length (actors group))%nat.

(** [open && group.actors.length > 1 && group.actors.map(...)] *)
Definition expandedList (open : bool) (group : GroupedActivity) : js (list ActorProperties) :=
  if open && (1 <? length (actors group))%nat then keyed (actors group) else Ok [].

(** Truthiness of [group.object?.inReplyTo]. *)
Definition inReplyToTruthy (group : GroupedActivity) : bool :=
  match group_object group with
  | Some o =>
      match object_inReplyTo o with
      | NoReply => false
      | ReplyReference url => negb (String.eqb url EmptyString)
      | ReplyObject _ => true
      end
  | None => false
  end.

(** [group.object?.name] and [group.object?.content] *)
Definition groupObjectName (group : GroupedActivity) : jsString :=
  match group_object group with
  | Some o => object_name o
  | None => None
  end.

Definition groupObjectContent (group : GroupedActivity) : jsString :=
  match group_object group with
  | Some o => object_content o
  | None => None
  end.

(** The condition under which the content of the object is shown below
    the description. *)
Definition showsPreview (group : GroupedActivity) : bool :=
  (String.eqb (group_type group) CREATE && inReplyToTruthy group)
  || (String.eqb (group_type group) LIKE
      && negb (truthy (groupObjectName group)) && truthy (groupObjectContent group))
  || (String.eqb (group_type group) REPOST
      && negb (truthy (groupObjectName group)) && truthy (groupObjectContent group)).

(** [isLoading === false && groupedActivities.length === 0] and
    [groupedActivities.length > 0] *)
Definition showsEmptyView (isLoading : bool) (entries : list Entry) : bool :=
  negb isLoading && (length entries =? 0)%nat.

Definition showsList (entries : list Entry) : bool := (0 <? length entries)%nat.

(** [group.object?.id], [group.object?.attributedTo?.id] and
    [group.object?.inReplyTo?.attributedTo?.id] *)
Definition groupObjectId (group : GroupedActivity) : jsString :=
  match group_object group with
  | Some o => object_id o
  | None => None
  end.



(** ** The profile view *)

(** [params.handle || 'me'], the handle of the account query. *)
Definition accountHandle (paramsHandle : jsString) : string :=
  if truthy paramsHandle then toText paramsHandle else "me".

(** [params.handle || ''], the [handle] prop of the tabs. *)
Definition tabHandle (paramsHandle : jsString) : string :=
  if truthy paramsHandle then toText paramsHandle else EmptyString.

(** [handle ? handle : 'me'] in [PostsTab]. *)
Definition postsQueryHandle (handle : string) : string :=
  if negb (String.eqb handle EmptyString) then handle else "me".

(** [handle === '' ? 'me' : handle] in [FollowingTab] and [FollowersTab]. *)
Definition followsQueryHandle (handle : string) : string :=
  if String.eqb handle EmptyString then "me" else handle.

(** The messages of the tabs when there is nothing to list. *)
Definition postsNoResultsMessage (handle : string) : string :=
  if negb (String.eqb handle EmptyString)
  then (handle ++ " hasn't posted anything yet")%string
  else "You haven't posted anything yet.".

Definition followsNoResultsMessage (handle ending : string) : string :=
  ((if negb (String.eqb handle EmptyString) then handle else "You") ++ ending)%string.



(** ** The layout *)

Inductive LayoutBody :=
| MainGrid
| OnboardingScreen.

Inductive LayoutView :=
| RenderNull
| NavigateTo (to : string)
| Container (className : string) (body : LayoutBody) (newNoteOpen : bool).

(** [Layout]; the class of the container interpolates
    [isOnboarded && 'overflow-y-auto']. *)
Definition Layout {User : Type} (isLoading : bool) (currentUser : option User)
  (isOnboarded isNewNoteModalOpen : bool) : LayoutView :=
  if isLoading || match currentUser with Some _ => false | None => true end then
    RenderNull
  else if negb isOnboarded then NavigateTo "/welcome"
  else
    Container
      ("h-screen w-full " ++ (if isOnboarded then "overflow-y-auto" else "false"))%string
      (if isOnboarded then MainGrid else OnboardingScreen)
      isNewNoteModalOpen.

(** ** More vocabulary *)

(** [l] is [m] with some elements left out, the others in the same order. *)
Inductive Subsequence {A : Type} : list A -> list A -> Prop :=
| Subsequence_nil : Subsequence [] []
| Subsequence_skip (x : A) (l m : list A) : Subsequence l m -> Subsequence l (x :: m)
| Subsequence_keep (x : A) (l m : list A) : Subsequence l m -> Subsequence (x :: l) (x :: m).

(** The conjunction of the five viewer filters. *)
Definition passesFilters (userProfile : option ActorProperties) (a : Activity) : bool :=
  notOwnLike userProfile a && likeOfOwnPost userProfile a
  && repostOfOwnPost userProfile a && replyToOwnPost userProfile a
  && notOwnCreate userProfile a.

(** * Properties *)

(** ** Strict equality and the array helpers *)

Lemma strictEq_eq (x y : jsString) : strictEq x y = true <-> x = y.
Proof.
  destruct x as [a|], y as [b|]; simpl; split; intro H;
    try discriminate; try reflexivity.
  - apply String.eqb_eq in H. now subst.
  - injection H as ->. apply String.eqb_refl.
Qed.

Lemma strictEq_refl (x : jsString) : strictEq x x = true.
Proof. now apply strictEq_eq. Qed.

Lemma strictEq_neq (x y : jsString) : strictEq x y = false <-> x <> y.
Proof.
  split.
  - intros H E. apply strictEq_eq in E. congruence.
  - intro H. destruct (strictEq x y) eqn:E; [|reflexivity].
    apply strictEq_eq in E. contradiction.
Qed.

Lemma strictEq_sym (x y : jsString) : strictEq x y = strictEq y x.
Proof.
  destruct (strictEq y x) eqn:E.
  - apply strictEq_eq in E. subst. apply strictEq_refl.
  - apply strictEq_neq in E. apply strictEq_neq. congruence.
Qed.

Lemma bind_Ok {A B : Type} (m : js A) (f : A -> js B) (b : B) :
  bind m f = Ok b -> exists a, m = Ok a /\ f a = Ok b.
Proof.
  destruct m as [a|]; simpl; [|discriminate]. intro H. now exists a.
Qed.

Lemma forEach_app {A S : Type} (body : S -> A -> js S) (l1 l2 : list A) (s : S) :
  forEach body (l1 ++ l2) s = (s' <- forEach body l1 s ;; forEach body l2 s').
Proof.
  revert s. induction l1 as [|a l1 IH]; intro s; simpl; [reflexivity|].
  destruct (body s a) as [s1|]; simpl; [apply IH | reflexivity].
Qed.

Lemma flatMap_app {A B : Type} (f : A -> js (list B)) (l1 l2 : list A) :
  flatMap f (l1 ++ l2)
  = (ys <- flatMap f l1 ;; zs <- flatMap f l2 ;; Ok (ys ++ zs)).
Proof.
  induction l1 as [|a l1 IH]; simpl.
  - destruct (flatMap f l2); reflexivity.
  - destruct (f a) as [ys|]; simpl; [|reflexivity].
    rewrite IH. destruct (flatMap f l1) as [ys1|]; simpl; [|reflexivity].
    destruct (flatMap f l2) as [zs|]; simpl; [|reflexivity].
    now rewrite app_assoc.
Qed.

Lemma findIndexFrom_app {A : Type} (p : A -> bool) (l1 l2 : list A) (i : nat) :
  findIndexFrom p (l1 ++ l2) i
  = if existsb p l1 then findIndexFrom p l1 i
    else findIndexFrom p l2 (i + length l1).
Proof.
  revert i. induction l1 as [|a l1 IH]; intro i; simpl.
  - now rewrite Nat.add_0_r.
  - destruct (p a); simpl; [reflexivity|].
    rewrite IH. now rewrite Nat.add_succ_r.
Qed.

Lemma findIndexFrom_bound {A : Type} (p : A -> bool) (l : list A) (i n : nat) :
  findIndexFrom p l i = Some n -> i <= n < i + length l.
Proof.
  revert i. induction l as [|a l IH]; intro i; simpl; [discriminate|].
  destruct (p a).
  - intro H. injection H as <-. lia.
  - intro H. apply IH in H. lia.
Qed.

Lemma filterFrom_app {A : Type} (q : A -> nat -> bool) (l1 l2 : list A) (i : nat) :
  filterFrom q (l1 ++ l2) i
  = filterFrom q l1 i ++ filterFrom q l2 (i + length l1).
Proof.
  revert i. induction l1 as [|a l1 IH]; intro i; simpl.
  - now rewrite Nat.add_0_r.
  - rewrite IH, Nat.add_succ_r. now destruct (q a i).
Qed.

Lemma filterFrom_ext {A : Type} (q q' : A -> nat -> bool) (l : list A) (i : nat) :
  (forall j x, nth_error l j = Some x -> q x (i + j) = q' x (i + j)) ->
  filterFrom q l i = filterFrom q' l i.
Proof.
  revert i. induction l as [|a l IH]; intros i H; simpl; [reflexivity|].
  assert (E : q a i = q' a i).
  { specialize (H 0 a eq_refl). now rewrite Nat.add_0_r in H. }
  rewrite E, (IH (S i)); [reflexivity|].
  intros j x Hj. specialize (H (S j) x Hj). now rewrite Nat.add_succ_r in H.
Qed.

(** ** De-duplication *)

Lemma removeDuplicates_nil : removeDuplicates [] = [].
Proof. reflexivity. Qed.

(** An activity appended to a page is kept exactly when no activity of the
    page has its id; the rest of the result is unchanged. *)
Lemma removeDuplicates_snoc (l : list Activity) (a : Activity) :
  removeDuplicates (l ++ [a])
  = if existsb (fun b => strictEq (id b) (id a)) l
    then removeDuplicates l
    else removeDuplicates l ++ [a].
Proof.
  unfold removeDuplicates, filterIndexed.
  rewrite filterFrom_app. simpl.
  assert (E : filterFrom
                (fun activity index =>
                   indexIs index
                     (findIndex (fun a0 => strictEq (id a0) (id activity)) (l ++ [a])))
                l 0
              = filterFrom
                  (fun activity index =>
                     indexIs index
                       (findIndex (fun a0 => strictEq (id a0) (id activity)) l))
                  l 0).
  { apply filterFrom_ext. intros j x Hj. unfold findIndex.
    rewrite findIndexFrom_app.
    assert (Hx : existsb (fun a0 => strictEq (id a0) (id x)) l = true).
    { apply existsb_exists. exists x. split.
      - eapply nth_error_In; eauto.
      - apply strictEq_refl. }
    now rewrite Hx. }
  rewrite E. unfold findIndex. rewrite findIndexFrom_app. simpl.
  destruct (existsb (fun b => strictEq (id b) (id a)) l) eqn:Ex.
  - destruct (findIndexFrom (fun a0 => strictEq (id a0) (id a)) l 0) as [n|] eqn:Hn;
      simpl.
    + apply findIndexFrom_bound in Hn.
      replace (length l =? n)%nat with false by (symmetry; apply Nat.eqb_neq; lia).
      now rewrite app_nil_r.
    + now rewrite app_nil_r.
  - rewrite strictEq_refl. simpl. now rewrite Nat.eqb_refl.
Qed.

Lemma existsb_removeDuplicates (i : jsString) (l : list Activity) :
  existsb (fun b => strictEq (id b) i) (removeDuplicates l)
  = existsb (fun b => strictEq (id b) i) l.
Proof.
  induction l as [|a l IH] using rev_ind; [reflexivity|].
  rewrite removeDuplicates_snoc.
  destruct (existsb (fun b => strictEq (id b) (id a)) l) eqn:Ex.
  - rewrite IH, existsb_app. simpl. rewrite orb_false_r.
    destruct (strictEq (id a) i) eqn:Ea; [|now rewrite orb_false_r].
    apply strictEq_eq in Ea. subst i. now rewrite Ex.
  - now rewrite !existsb_app, IH.
Qed.

Lemma removeDuplicates_incl (l : list Activity) (a : Activity) :
  In a (removeDuplicates l) -> In a l.
Proof.
  induction l as [|b l IH] using rev_ind; [trivial|].
  rewrite removeDuplicates_snoc.
  destruct (existsb (fun b0 => strictEq (id b0) (id b)) l); intro H.
  - apply in_or_app. left. now apply IH.
  - apply in_app_or in H. apply in_or_app. destruct H as [H|H]; [left; now apply IH | now right].
Qed.

Lemma removeDuplicates_idempotent (l : list Activity) :
  removeDuplicates (removeDuplicates l) = removeDuplicates l.
Proof.
  induction l as [|a l IH] using rev_ind; [reflexivity|].
  rewrite removeDuplicates_snoc.
  destruct (existsb (fun b => strictEq (id b) (id a)) l) eqn:Ex; [exact IH|].
  rewrite removeDuplicates_snoc, existsb_removeDuplicates, Ex. now rewrite IH.
Qed.

Lemma filter_none {A : Type} (p : A -> bool) (l : list A) :
  existsb p l = false -> filter p l = [].
Proof.
  induction l as [|a l IH]; simpl; [reflexivity|].
  destruct (p a); simpl; [discriminate | exact IH].
Qed.

Lemma removeDuplicates_once (l : list Activity) (i : jsString) :
  length (filter (fun b => strictEq (id b) i) (removeDuplicates l))
  = if existsb (fun b => strictEq (id b) i) l then 1 else 0.
Proof.
  induction l as [|a l IH] using rev_ind; [reflexivity|].
  rewrite removeDuplicates_snoc, existsb_app. simpl. rewrite orb_false_r.
  destruct (existsb (fun b => strictEq (id b) (id a)) l) eqn:Ex.
  - rewrite IH.
    destruct (strictEq (id a) i) eqn:Ea; [|now rewrite orb_false_r].
    apply strictEq_eq in Ea. subst i. now rewrite Ex.
  - rewrite filter_app, length_app, IH. simpl.
    destruct (strictEq (id a) i) eqn:Ea.
    + apply strictEq_eq in Ea. subst i. now rewrite Ex.
    + now rewrite orb_false_r, Nat.add_0_r.
Qed.

Lemma find_app_l {A : Type} (p : A -> bool) (l1 l2 : list A) :
  List.find p (l1 ++ l2)
  = match List.find p l1 with Some x => Some x | None => List.find p l2 end.
Proof.
  induction l1 as [|a l1 IH]; simpl; [reflexivity|]. now destruct (p a).
Qed.

Lemma find_none_existsb {A : Type} (p : A -> bool) (l : list A) :
  existsb p l = false -> List.find p l = None.
Proof.
  induction l as [|a l IH]; simpl; [reflexivity|].
  destruct (p a); simpl; [discriminate | exact IH].
Qed.

Lemma removeDuplicates_first (l : list Activity) (a : Activity) :
  In a (removeDuplicates l) -> firstWithId (id a) l = Some a.
Proof.
  unfold firstWithId.
  induction l as [|b l IH] using rev_ind; [intros []|].
  rewrite removeDuplicates_snoc, find_app_l.
  destruct (existsb (fun b0 => strictEq (id b0) (id b)) l) eqn:Ex; intro H.
  - now rewrite (IH H).
  - apply in_app_or in H. destruct H as [H|[H|[]]].
    + now rewrite (IH H).
    + subst b. rewrite (find_none_existsb _ _ Ex). simpl. now rewrite strictEq_refl.
Qed.

(** ** The map of groups *)

Lemma get_None_iff {V : Type} (k : string) (o : JsObject.t V) :
  JsObject.get k o = None <-> ~ In k (map fst o).
Proof.
  induction o as [|[k' v] o IH]; simpl; [tauto|].
  destruct (String.eqb k' k) eqn:E.
  - apply String.eqb_eq in E. split; [discriminate | tauto].
  - apply String.eqb_neq in E. rewrite IH. tauto.
Qed.

Lemma get_In {V : Type} (k : string) (v : V) (o : JsObject.t V) :
  JsObject.get k o = Some v -> In (k, v) o.
Proof.
  induction o as [|[k' v'] o IH]; simpl; [discriminate|].
  destruct (String.eqb k' k) eqn:E.
  - apply String.eqb_eq in E. intro H. injection H as ->. subst. now left.
  - intro H. right. now apply IH.
Qed.

Lemma In_get {V : Type} (k : string) (v : V) (o : JsObject.t V) :
  NoDup (map fst o) -> In (k, v) o -> JsObject.get k o = Some v.
Proof.
  induction o as [|[k' v'] o IH]; simpl; [intros _ []|].
  intros Hnd [H|H].
  - injection H as -> ->. now rewrite String.eqb_refl.
  - inversion Hnd as [|? ? Hnot Hnd']; subst.
    destruct (String.eqb k' k) eqn:E.
    + apply String.eqb_eq in E. subst k'. exfalso. apply Hnot.
      change k with (fst (k, v)). now apply in_map.
    + now apply IH.
Qed.

Lemma set_new {V : Type} (k : string) (v : V) (o : JsObject.t V) :
  JsObject.get k o = None -> JsObject.set k v o = o ++ [(k, v)].
Proof.
  induction o as [|[k' v'] o IH]; simpl; [reflexivity|].
  destruct (String.eqb k' k); [discriminate|].
  intro H. now rewrite IH.
Qed.

Lemma set_keys {V : Type} (k : string) (v v' : V) (o : JsObject.t V) :
  JsObject.get k o = Some v' -> map fst (JsObject.set k v o) = map fst o.
Proof.
  induction o as [|[k1 v1] o IH]; simpl; [discriminate|].
  destruct (String.eqb k1 k); simpl; [reflexivity|].
  intro H. now rewrite IH.
Qed.

Lemma get_set_same {V : Type} (k : string) (v : V) (o : JsObject.t V) :
  JsObject.get k (JsObject.set k v o) = Some v.
Proof.
  induction o as [|[k' v'] o IH]; simpl.
  - now rewrite String.eqb_refl.
  - destruct (String.eqb k' k) eqn:E; simpl; now rewrite E.
Qed.

Lemma get_set_other {V : Type} (k k' : string) (v : V) (o : JsObject.t V) :
  k <> k' -> JsObject.get k' (JsObject.set k v o) = JsObject.get k' o.
Proof.
  intro Hne. induction o as [|[k1 v1] o IH]; simpl.
  - apply String.eqb_neq in Hne. now rewrite Hne.
  - destruct (String.eqb k1 k) eqn:E; simpl.
    + apply String.eqb_eq in E. subst k1.
      apply String.eqb_neq in Hne. now rewrite Hne.
    + now rewrite IH.
Qed.

(** Without array-index keys [Object.values] follows creation order. *)
Lemma values_creation_order {V : Type} (o : JsObject.t V) :
  Forall (fun k => JsObject.isArrayIndex k = false) (map fst o) ->
  JsObject.values o = map snd o /\ JsObject.keys o = map fst o.
Proof.
  intro H. unfold JsObject.values, JsObject.keys, JsObject.ownProperties.
  assert (E1 : filter (fun e : string * V => JsObject.isArrayIndex (fst e)) o = []).
  { induction o as [|e o IH]; simpl; [reflexivity|].
    inversion H as [|? ? He Ho]; subst. rewrite He. now apply IH. }
  assert (E2 : filter (fun e : string * V => negb (JsObject.isArrayIndex (fst e))) o = o).
  { induction o as [|e o IH]; simpl; [reflexivity|].
    inversion H as [|? ? He Ho]; subst. rewrite He. simpl. f_equal.
    apply IH; [exact Ho|]. simpl in E1. now rewrite He in E1. }
  rewrite E1, E2. now split.
Qed.

(** Array-index keys do come first, whatever the creation order. *)
Example values_index_keys_first :
  JsObject.values [("b", 1); ("10", 2); ("9", 3); ("01", 4)] = [3; 2; 1; 4].
Proof. reflexivity. Qed.

(** ** Grouping keys *)

Lemma groupKey_not_index (a : Activity) : JsObject.isArrayIndex (groupKey a) = false.
Proof.
  unfold groupKey.
  destruct (String.eqb (type a) FOLLOW); [reflexivity|].
  destruct (String.eqb (type a) LIKE).
  { destruct (truthy (objectId a)); reflexivity. }
  destruct (String.eqb (type a) REPOST).
  { destruct (truthy (objectId a)); reflexivity. }
  destruct (String.eqb (type a) CREATE); reflexivity.
Qed.

Lemma groupKey_own_only (a : Activity) : ~ In (groupKey a) JsObject.inherited.
Proof.
  unfold groupKey, JsObject.inherited.
  destruct (String.eqb (type a) FOLLOW).
  { simpl. intuition discriminate. }
  destruct (String.eqb (type a) LIKE).
  { destruct (truthy (objectId a)); simpl; intuition discriminate. }
  destruct (String.eqb (type a) REPOST).
  { destruct (truthy (objectId a)); simpl; intuition discriminate. }
  destruct (String.eqb (type a) CREATE); simpl; intuition discriminate.
Qed.

Lemma groupKey_follow (a : Activity) :
  type a = FOLLOW -> groupKey a = "follow_Follow".
Proof. unfold groupKey. intros ->. reflexivity. Qed.

Lemma groupKey_like (a : Activity) :
  type a = LIKE ->
  groupKey a
  = if truthy (objectId a) then ("like_" ++ toText (objectId a))%string
    else EmptyString.
Proof. unfold groupKey. intros ->. reflexivity. Qed.

Lemma groupKey_repost (a : Activity) :
  type a = REPOST ->
  groupKey a
  = if truthy (objectId a) then ("announce_" ++ toText (objectId a))%string
    else EmptyString.
Proof. unfold groupKey. intros ->. reflexivity. Qed.

Lemma groupKey_create (a : Activity) :
  type a = CREATE -> groupKey a = ("create_" ++ toText (id a))%string.
Proof. unfold groupKey. intros ->. reflexivity. Qed.

(** The shapes a key can take, by type. *)
Lemma groupKey_cases (a : Activity) :
  (type a = FOLLOW /\ groupKey a = "follow_Follow")
  \/ (type a = LIKE
      /\ groupKey a = if truthy (objectId a)
                      then ("like_" ++ toText (objectId a))%string
                      else EmptyString)
  \/ (type a = REPOST
      /\ groupKey a = if truthy (objectId a)
                      then ("announce_" ++ toText (objectId a))%string
                      else EmptyString)
  \/ (type a = CREATE /\ groupKey a = ("create_" ++ toText (id a))%string)
  \/ (type a <> FOLLOW /\ type a <> LIKE /\ type a <> REPOST /\ type a <> CREATE
      /\ groupKey a = EmptyString).
Proof.
  destruct (String.eqb (type a) FOLLOW) eqn:Ef.
  { apply String.eqb_eq in Ef. left. split; [exact Ef | now apply groupKey_follow]. }
  destruct (String.eqb (type a) LIKE) eqn:El.
  { apply String.eqb_eq in El. right. left. split; [exact El | now apply groupKey_like]. }
  destruct (String.eqb (type a) REPOST) eqn:Er.
  { apply String.eqb_eq in Er. right. right. left.
    split; [exact Er | now apply groupKey_repost]. }
  destruct (String.eqb (type a) CREATE) eqn:Ec.
  { apply String.eqb_eq in Ec. right. right. right. left.
    split; [exact Ec | now apply groupKey_create]. }
  right. right. right. right.
  unfold groupKey. rewrite Ef, El, Er, Ec.
  apply String.eqb_neq in Ef, El, Er, Ec. tauto.
Qed.

Lemma truthy_iff (x : jsString) :
  truthy x = true <-> exists s, x = Some s /\ s <> EmptyString.
Proof.
  destruct x as [s|]; simpl.
  - rewrite negb_true_iff, String.eqb_neq. split.
    + intro H. now exists s.
    + intros [s' [E H]]. now injection E as ->.
  - split; [discriminate | intros [s [E _]]; discriminate].
Qed.

Lemma truthy_text (x : jsString) (i : string) :
  truthy x = true -> toText x = i -> x = Some i.
Proof.
  intros H E. apply truthy_iff in H. destruct H as [s [-> _]]. simpl in E.
  now subst.
Qed.

Lemma falsy_iff (x : jsString) :
  truthy x = false <-> x = None \/ x = Some EmptyString.
Proof.
  destruct x as [s|]; simpl.
  - rewrite negb_false_iff, String.eqb_eq. split.
    + intros ->. now right.
    + intros [H|H]; [discriminate | now injection H].
  - split; [now left | reflexivity].
Qed.

Ltac key_shapes b H :=
  destruct (groupKey_cases b)
    as [[? Hk] | [[? Hk] | [[? Hk] | [[? Hk] | [? [? [? [? Hk]]]]]]]];
  rewrite Hk in H;
  match type of H with
  | context [truthy (objectId b)] => destruct (truthy (objectId b)) eqn:?
  | _ => idtac
  end;
  simpl in H; try discriminate H.

(** Who shares the key of a Follow. *)
Lemma follow_key_shared (a b : Activity) :
  type a = FOLLOW -> (groupKey b = groupKey a <-> type b = FOLLOW).
Proof.
  intro Ha. rewrite (groupKey_follow a Ha). split.
  - intro H. key_shapes b H. assumption.
  - apply groupKey_follow.
Qed.

Lemma like_key_shared (a b : Activity) (i : string) :
  type a = LIKE -> objectId a = Some i -> i <> EmptyString ->
  (groupKey b = groupKey a <-> type b = LIKE /\ objectId b = Some i).
Proof.
  intros Ha Hi Hne.
  assert (Ka : groupKey a = ("like_" ++ i)%string).
  { rewrite (groupKey_like a Ha), Hi. simpl.
    apply String.eqb_neq in Hne. now rewrite Hne. }
  rewrite Ka. split.
  - intro H. key_shapes b H. split; [assumption|].
    injection H as H. now apply truthy_text.
  - intros [Hb Ho]. rewrite (groupKey_like b Hb), Ho. simpl.
    apply String.eqb_neq in Hne. now rewrite Hne.
Qed.

Lemma repost_key_shared (a b : Activity) (i : string) :
  type a = REPOST -> objectId a = Some i -> i <> EmptyString ->
  (groupKey b = groupKey a <-> type b = REPOST /\ objectId b = Some i).
Proof.
  intros Ha Hi Hne.
  assert (Ka : groupKey a = ("announce_" ++ i)%string).
  { rewrite (groupKey_repost a Ha), Hi. simpl.
    apply String.eqb_neq in Hne. now rewrite Hne. }
  rewrite Ka. split.
  - intro H. key_shapes b H. split; [assumption|].
    injection H as H. now apply truthy_text.
  - intros [Hb Ho]. rewrite (groupKey_repost b Hb), Ho. simpl.
    apply String.eqb_neq in Hne. now rewrite Hne.
Qed.

Lemma create_key_shared (a b : Activity) :
  type a = CREATE ->
  (groupKey b = groupKey a <-> type b = CREATE /\ toText (id b) = toText (id a)).
Proof.
  intro Ha. rewrite (groupKey_create a Ha). split.
  - intro H. key_shapes b H. split; [assumption|]. now injection H as H.
  - intros [Hb E]. rewrite (groupKey_create b Hb). now rewrite E.
Qed.

Lemma empty_key (a : Activity) :
  type a = LIKE \/ type a = REPOST ->
  objectId a = None \/ objectId a = Some EmptyString ->
  groupKey a = EmptyString.
Proof.
  intros Ht Ho. apply falsy_iff in Ho.
  destruct Ht as [Ht|Ht];
    [rewrite (groupKey_like a Ht) | rewrite (groupKey_repost a Ht)];
    now rewrite Ho.
Qed.

Lemma groupKey_ext (a b : Activity) :
  type a = type b -> objectId a = objectId b -> id a = id b ->
  groupKey a = groupKey b.
Proof. unfold groupKey. now intros -> -> ->. Qed.

(** ** First occurrences *)

Section FirstOccurrences.

Context {A : Type} (same : A -> A -> bool).
Hypothesis same_sym : forall x y, same x y = same y x.

Lemma firstOccurrences_snoc (l : list A) (x : A) :
  firstOccurrences same (l ++ [x])
  = if existsb (same x) l then firstOccurrences same l
    else firstOccurrences same l ++ [x].
Proof.
  induction l as [|y l IH]; simpl; [reflexivity|].
  rewrite IH. destruct (existsb (same x) l) eqn:Ex.
  - now rewrite orb_true_r.
  - rewrite orb_false_r, filter_app. simpl.
    rewrite (same_sym y x). destruct (same x y); simpl; [|reflexivity].
    now rewrite app_nil_r.
Qed.

Lemma firstOccurrences_incl (l : list A) (x : A) :
  In x (firstOccurrences same l) -> In x l.
Proof.
  revert x. induction l as [|y l IH]; simpl; [trivial|].
  intros x [H|H]; [now left|]. right. apply filter_In in H. now apply IH.
Qed.

Lemma firstOccurrences_nonempty (l : list A) :
  l <> [] -> firstOccurrences same l <> [].
Proof. destruct l; simpl; [congruence | discriminate]. Qed.

Lemma ForallOrdPairs_filter (R : A -> A -> Prop) (p : A -> bool) (l : list A) :
  ForallOrdPairs R l -> ForallOrdPairs R (filter p l).
Proof.
  induction 1 as [|x l Hx Hl IH]; simpl; [constructor|].
  destruct (p x); [|exact IH]. constructor; [|exact IH].
  rewrite Forall_forall in *. intros y Hy. apply filter_In in Hy. now apply Hx.
Qed.

(** No two elements that are kept are the same. *)
Lemma firstOccurrences_distinct (l : list A) :
  ForallOrdPairs (fun x y => same x y = false) (firstOccurrences same l).
Proof.
  induction l as [|x l IH]; simpl; constructor.
  - apply Forall_forall. intros y Hy. apply filter_In in Hy.
    now apply negb_true_iff.
  - now apply ForallOrdPairs_filter.
Qed.

Hypothesis same_trans :
  forall x y z, same x y = true -> same y z = true -> same x z = true.

Lemma existsb_firstOccurrences (l : list A) (x : A) :
  existsb (same x) (firstOccurrences same l) = existsb (same x) l.
Proof.
  induction l as [|y l IH]; simpl; [reflexivity|].
  destruct (same x y) eqn:Exy; simpl; [reflexivity|].
  rewrite <- IH. clear IH.
  induction (firstOccurrences same l) as [|z m IHm]; simpl; [reflexivity|].
  destruct (same y z) eqn:Eyz; simpl.
  - rewrite IHm. destruct (same x z) eqn:Exz; [|reflexivity].
    rewrite same_sym in Eyz.
    now rewrite (same_trans _ _ _ Exz Eyz) in Exy.
  - now rewrite IHm.
Qed.

End FirstOccurrences.

Lemma sameActorId_sym (x y : option ActorProperties) :
  sameActorId x y = sameActorId y x.
Proof. destruct x, y; simpl; try reflexivity. apply strictEq_sym. Qed.

Lemma sameActorId_trans (x y z : option ActorProperties) :
  sameActorId x y = true -> sameActorId y z = true -> sameActorId x z = true.
Proof.
  destruct x, y, z; simpl; try discriminate.
  rewrite !strictEq_eq. congruence.
Qed.

Lemma eqb_trans (x y z : string) :
  String.eqb x y = true -> String.eqb y z = true -> String.eqb x z = true.
Proof. rewrite !String.eqb_eq. congruence. Qed.

Lemma existsb_eqb_In (k : string) (l : list string) :
  existsb (String.eqb k) l = true <-> In k l.
Proof.
  rewrite existsb_exists. split.
  - intros [x [Hx E]]. apply String.eqb_eq in E. now subst.
  - intro H. exists k. split; [exact H | apply String.eqb_refl].
Qed.

Lemma In_distinctKeys (k : string) (l : list string) :
  In k (distinctKeys l) <-> In k l.
Proof.
  rewrite <- !existsb_eqb_In. unfold distinctKeys.
  now rewrite (existsb_firstOccurrences String.eqb String.eqb_sym eqb_trans).
Qed.

Lemma NoDup_filter {A : Type} (p : A -> bool) (l : list A) :
  NoDup l -> NoDup (filter p l).
Proof.
  induction 1 as [|x l Hx Hl IH]; simpl; [constructor|].
  destruct (p x); [|exact IH].
  constructor; [|exact IH]. rewrite filter_In. tauto.
Qed.

Lemma NoDup_distinctKeys (l : list string) : NoDup (distinctKeys l).
Proof.
  unfold distinctKeys. induction l as [|x l IH]; simpl; constructor.
  - rewrite filter_In, String.eqb_refl. simpl. intros [_ H]. discriminate.
  - now apply NoDup_filter.
Qed.

Lemma distinctKeys_snoc_old (l : list string) (k : string) :
  In k l -> distinctKeys (l ++ [k]) = distinctKeys l.
Proof.
  intro H. unfold distinctKeys.
  rewrite (firstOccurrences_snoc String.eqb String.eqb_sym).
  apply existsb_eqb_In in H. now rewrite H.
Qed.

Lemma distinctKeys_snoc_new (l : list string) (k : string) :
  ~ In k l -> distinctKeys (l ++ [k]) = distinctKeys l ++ [k].
Proof.
  intro H. unfold distinctKeys.
  rewrite (firstOccurrences_snoc String.eqb String.eqb_sym).
  destruct (existsb (String.eqb k) l) eqn:E; [|reflexivity].
  apply existsb_eqb_In in E. contradiction.
Qed.

Lemma bearing_snoc (k : string) (l : list Activity) (a : Activity) :
  bearing k (l ++ [a])
  = if String.eqb (groupKey a) k then bearing k l ++ [a] else bearing k l.
Proof.
  unfold bearing. rewrite filter_app. simpl.
  destruct (String.eqb (groupKey a) k); [reflexivity | apply app_nil_r].
Qed.

Lemma bearing_nil_iff (k : string) (l : list Activity) :
  bearing k l = [] <-> ~ In k (map groupKey l).
Proof.
  unfold bearing. induction l as [|a l IH]; simpl; [tauto|].
  destruct (String.eqb (groupKey a) k) eqn:E.
  - apply String.eqb_eq in E. split; [discriminate | tauto].
  - apply String.eqb_neq in E. rewrite IH. tauto.
Qed.

(** ** The loop of groupActivities *)

Lemma find_sameActorAs (a : Activity) (l : list (option ActorProperties))
  (r : option (option ActorProperties)) :
  find (sameActorAs a) l = Ok r ->
  existsb (sameActorId (actor a)) l = match r with Some _ => true | None => false end.
Proof.
  revert r. induction l as [|y l IH]; simpl; intros r H.
  - now injection H as <-.
  - apply bind_Ok in H. destruct H as [b [Hcb H]].
    unfold sameActorAs in Hcb.
    destruct y as [y|]; [|discriminate].
    destruct (actor a) as [x|] eqn:Ea; [|discriminate].
    injection Hcb as <-. simpl. rewrite (strictEq_sym (actor_id x)).
    destruct (strictEq (actor_id y) (actor_id x)); simpl.
    + now injection H as <-.
    + apply IH in H. exact H.
Qed.

Lemma find_sameActorAs_total (a : Activity) (l : list (option ActorProperties)) :
  hasActor a -> (forall y, In y l -> y <> None) ->
  exists r, find (sameActorAs a) l = Ok r.
Proof.
  unfold hasActor. intros Ha Hl. induction l as [|y l IH]; simpl; [eauto|].
  destruct y as [y|]; [|exfalso; apply (Hl None); [now left | reflexivity]].
  unfold sameActorAs at 1. destruct (actor a) as [x|]; [|congruence]. simpl.
  destruct (strictEq (actor_id y) (actor_id x)); [eauto|].
  apply IH. intros z Hz. apply Hl. now right.
Qed.

Lemma collected_empty : collected [] JsObject.empty.
Proof. split; [reflexivity | discriminate]. Qed.

Lemma collected_key_seen (l : list Activity) (groups : JsObject.t GroupedActivity)
  (k : string) :
  collected l groups ->
  (JsObject.get k groups = None <-> ~ In k (map groupKey l)).
Proof.
  intros [Hkeys _]. now rewrite get_None_iff, Hkeys, In_distinctKeys.
Qed.

Lemma firstSeenActors_snoc (l : list (option ActorProperties))
  (x : option ActorProperties) :
  firstSeenActors (l ++ [x])
  = if existsb (sameActorId x) (firstSeenActors l) then firstSeenActors l
    else firstSeenActors l ++ [x].
Proof.
  unfold firstSeenActors.
  rewrite (existsb_firstOccurrences sameActorId sameActorId_sym sameActorId_trans).
  apply (firstOccurrences_snoc sameActorId sameActorId_sym).
Qed.

Lemma addActivity_collected (l : list Activity) (a : Activity)
  (groups groups' : JsObject.t GroupedActivity) :
  collected l groups -> addActivity groups a = Ok groups' ->
  collected (l ++ [a]) groups'.
Proof.
  intros Hc Hstep. pose proof (collected_key_seen l groups (groupKey a) Hc) as Hseen.
  destruct Hc as [Hkeys Hgroups]. unfold addActivity in Hstep.
  destruct (JsObject.get (groupKey a) groups) as [g|] eqn:Hg.
  - (* the key already has a group *)
    rewrite Hg in Hstep. apply bind_Ok in Hstep.
    destruct Hstep as [found [Hfind Hres]]. apply find_sameActorAs in Hfind.
    destruct (Hgroups _ _ Hg) as [first [rest [Hb ->]]].
    change (actors (groupFrom first (first :: rest)))
      with (firstSeenActors (map actor (first :: rest))) in Hfind.
    assert (Hin : In (groupKey a) (map groupKey l)).
    { destruct (in_dec string_dec (groupKey a) (map groupKey l)) as [H|H];
        [exact H|]. apply Hseen in H. discriminate. }
    split.
    + rewrite map_app. simpl. rewrite (distinctKeys_snoc_old _ _ Hin).
      destruct found; injection Hres as <-; [exact Hkeys|].
      now rewrite (set_keys _ _ _ _ Hg).
    + intros k g' Hk. rewrite bearing_snoc.
      destruct (String.eqb (groupKey a) k) eqn:Ek.
      * apply String.eqb_eq in Ek. subst k. rewrite Hb.
        exists first, (rest ++ [a]). split; [reflexivity|].
        assert (Hact : firstSeenActors (map actor (first :: rest ++ [a]))
                       = if existsb (sameActorId (actor a))
                              (firstSeenActors (map actor (first :: rest)))
                         then firstSeenActors (map actor (first :: rest))
                         else firstSeenActors (map actor (first :: rest)) ++ [actor a]).
        { rewrite <- firstSeenActors_snoc. f_equal.
          change (first :: rest ++ [a]) with ((first :: rest) ++ [a]).
          now rewrite map_app. }
        rewrite Hfind in Hact. unfold groupFrom. rewrite Hact.
        destruct found; injection Hres as <-.
        -- rewrite Hg in Hk. now injection Hk as <-.
        -- rewrite get_set_same in Hk. now injection Hk as <-.
      * apply String.eqb_neq in Ek. apply Hgroups.
        destruct found; injection Hres as <-; [exact Hk|].
        now rewrite get_set_other in Hk.
  - (* first activity bearing the key *)
    rewrite get_set_same in Hstep. simpl in Hstep. injection Hstep as <-.
    assert (Hout : ~ In (groupKey a) (map groupKey l)) by now apply Hseen.
    split.
    + rewrite (set_keys _ _ _ _ (get_set_same _ _ _)), (set_new _ _ _ Hg).
      rewrite !map_app. simpl. rewrite (distinctKeys_snoc_new _ _ Hout).
      now rewrite Hkeys.
    + intros k g' Hk. rewrite bearing_snoc.
      destruct (String.eqb (groupKey a) k) eqn:Ek.
      * apply String.eqb_eq in Ek. subst k.
        rewrite get_set_same in Hk. injection Hk as <-.
        apply bearing_nil_iff in Hout. rewrite Hout.
        exists a, []. split; reflexivity.
      * apply String.eqb_neq in Ek. apply Hgroups.
        now rewrite !get_set_other in Hk.
Qed.

Lemma collectGroups_snoc (l : list Activity) (a : Activity) :
  collectGroups (l ++ [a])
  = (groups <- collectGroups l ;; addActivity groups a).
Proof.
  unfold collectGroups. rewrite forEach_app.
  destruct (forEach addActivity l JsObject.empty) as [groups|]; simpl;
    [|reflexivity].
  now destruct (addActivity groups a).
Qed.

Lemma collectGroups_collected (l : list Activity) (groups : JsObject.t GroupedActivity) :
  collectGroups l = Ok groups -> collected l groups.
Proof.
  revert groups. induction l as [|a l IH] using rev_ind; intros groups H.
  - injection H as <-. apply collected_empty.
  - rewrite collectGroups_snoc in H. apply bind_Ok in H.
    destruct H as [groups0 [H0 Hstep]].
    eapply addActivity_collected; eauto.
Qed.

Lemma bearing_incl (k : string) (l : list Activity) (a : Activity) :
  In a (bearing k l) -> In a l /\ groupKey a = k.
Proof.
  unfold bearing. rewrite filter_In. intros [H E].
  apply String.eqb_eq in E. now split.
Qed.

Lemma addActivity_total (l : list Activity) (a : Activity)
  (groups : JsObject.t GroupedActivity) :
  collected l groups -> Forall hasActor l -> hasActor a ->
  exists groups', addActivity groups a = Ok groups'.
Proof.
  intros [_ Hgroups] Hl Ha. unfold addActivity.
  destruct (JsObject.get (groupKey a) groups) as [g|] eqn:Hg.
  - rewrite Hg. destruct (Hgroups _ _ Hg) as [first [rest [Hb ->]]].
    destruct (find_sameActorAs_total a (actors (groupFrom first (first :: rest))) Ha)
      as [r Hr].
    + intros y Hy.
      change (In y (firstOccurrences sameActorId (map actor (first :: rest)))) in Hy.
      apply firstOccurrences_incl in Hy.
      apply in_map_iff in Hy. destruct Hy as [b [<- Hb']].
      rewrite <- Hb in Hb'. apply bearing_incl in Hb'.
      rewrite Forall_forall in Hl. apply Hl. tauto.
    + rewrite Hr. simpl. destruct r; eauto.
  - rewrite get_set_same. simpl. eauto.
Qed.

Lemma collectGroups_total (l : list Activity) :
  Forall hasActor l -> exists groups, collectGroups l = Ok groups.
Proof.
  induction l as [|a l IH] using rev_ind; intro H.
  - now exists JsObject.empty.
  - apply Forall_app in H. destruct H as [Hl Ha].
    inversion Ha as [|? ? Ha' _]; subst.
    destruct (IH Hl) as [groups Hg].
    destruct (addActivity_total l a groups (collectGroups_collected _ _ Hg) Hl Ha')
      as [groups' Hstep].
    exists groups'. now rewrite collectGroups_snoc, Hg.
Qed.

(** The keys of the map are never array indices, so [Object.values] lists
    the groups in creation order. *)
Lemma collected_values (l : list Activity) (groups : JsObject.t GroupedActivity) :
  collected l groups -> JsObject.values groups = map snd groups.
Proof.
  intros [Hkeys _]. apply values_creation_order.
  rewrite Hkeys. apply Forall_forall. intros k Hk.
  apply In_distinctKeys, in_map_iff in Hk. destruct Hk as [a [<- _]].
  apply groupKey_not_index.
Qed.

Lemma groupActivities_Ok (l : list Activity) (gs : list GroupedActivity) :
  groupActivities l = Ok gs <->
  exists groups, collectGroups l = Ok groups /\ gs = map snd groups.
Proof.
  unfold groupActivities. split.
  - intro H. apply bind_Ok in H. destruct H as [groups [Hg H]].
    exists groups. split; [exact Hg|]. injection H as <-.
    apply collected_values with (l := l). now apply collectGroups_collected.
  - intros [groups [Hg ->]]. rewrite Hg. simpl. f_equal.
    apply collected_values with (l := l). now apply collectGroups_collected.
Qed.

Lemma groupActivities_total (l : list Activity) :
  Forall hasActor l -> exists gs, groupActivities l = Ok gs.
Proof.
  intro H. destruct (collectGroups_total l H) as [groups Hg].
  exists (map snd groups). apply groupActivities_Ok. eauto.
Qed.

(** ** The viewer filters *)

Lemma contentFilters_In (userProfile : option ActorProperties) (l : list Activity)
  (a : Activity) :
  In a (contentFilters userProfile l) <->
  In a l
  /\ notOwnLike userProfile a = true
  /\ likeOfOwnPost userProfile a = true
  /\ repostOfOwnPost userProfile a = true
  /\ replyToOwnPost userProfile a = true
  /\ notOwnCreate userProfile a = true.
Proof. unfold contentFilters. rewrite !filter_In. tauto. Qed.

Lemma filtered_incl (userProfile : option ActorProperties) (page : Page) (a : Activity) :
  In a (filtered userProfile page) -> In a (data page).
Proof.
  unfold filtered. rewrite contentFilters_In. intros [H _].
  now apply removeDuplicates_incl.
Qed.

Ltac type_tests a :=
  repeat match goal with
    | H : type a = _ |- _ => rewrite H
    end;
  cbn [String.eqb Ascii.eqb Bool.eqb andb CREATE LIKE FOLLOW REPOST].

Lemma firstWithId_kept (l : list Activity) (a : Activity) :
  firstWithId (id a) l = Some a -> In a (removeDuplicates l).
Proof.
  unfold firstWithId.
  induction l as [|b l IH] using rev_ind; [discriminate|].
  rewrite find_app_l, removeDuplicates_snoc.
  destruct (List.find (fun b0 => strictEq (id b0) (id a)) l) as [x|] eqn:Hf.
  - intro H. injection H as ->.
    destruct (existsb (fun b0 => strictEq (id b0) (id b)) l);
      [|apply in_or_app; left]; now apply IH.
  - simpl. destruct (strictEq (id b) (id a)) eqn:E; [|discriminate].
    intro H. injection H as ->.
    destruct (existsb (fun b0 => strictEq (id b0) (id a)) l) eqn:Ex.
    + apply existsb_exists in Ex. destruct Ex as [x [Hx Ex]].
      now rewrite (find_none _ _ Hf x Hx) in Ex.
    + apply in_or_app. right. now left.
Qed.

(** C4: on every page the de-duplication keeps an activity exactly when it is
    the first one of the page with its id (an activity appended to a page is
    kept iff no activity of the page has its id, and the kept record is the
    first one with that id); every id of the page occurs exactly once in the
    result; and the step is idempotent. *)
Theorem removeDuplicates_first_occurrences :
  forall page : list Activity,
    (forall a, In a (removeDuplicates page) <->
               In a page /\ firstWithId (id a) page = Some a)
    /\ (forall a, removeDuplicates (page ++ [a])
                  = if existsb (fun b => strictEq (id b) (id a)) page
                    then removeDuplicates page
                    else removeDuplicates page ++ [a])
    /\ (forall a, In a page ->
          length (filter (fun b => strictEq (id b) (id a)) (removeDuplicates page)) = 1)
    /\ removeDuplicates (removeDuplicates page) = removeDuplicates page.
Proof.
  intro page. repeat split.
  - now apply removeDuplicates_incl.
  - now apply removeDuplicates_first.
  - intros [_ H]. now apply firstWithId_kept.
  - intro a. apply removeDuplicates_snoc.
  - intros a Ha. rewrite removeDuplicates_once.
    replace (existsb (fun b => strictEq (id b) (id a)) page) with true; [reflexivity|].
    symmetry. apply existsb_exists. exists a. split; [exact Ha | apply strictEq_refl].
  - apply removeDuplicates_idempotent.
Qed.

Lemma removeDuplicates_first_occurrences_witness :
  removeDuplicates [mkFollow "1" alice; mkFollow "2" bob; mkFollow "1" carol]
  = [mkFollow "1" alice; mkFollow "2" bob]
  /\ length (filter (fun b => strictEq (id b) (Some "1"))
               (removeDuplicates [mkFollow "1" alice; mkFollow "2" bob; mkFollow "1" carol]))
     = 1.
Proof.
  split; [reflexivity|].
  destruct (removeDuplicates_first_occurrences
              [mkFollow "1" alice; mkFollow "2" bob; mkFollow "1" carol])
    as [_ [_ [Honce _]]].
  apply (Honce (mkFollow "1" carol)). simpl. tauto.
Defined.

(** C5: for every viewer profile, with [V] the id it yields, and every page:
    a Like is in the filtered output iff it survived de-duplication, its
    actor id differs from [V] and the owner id of its object is [V]; an
    Announce iff it survived de-duplication and the owner id of its object is
    [V]; a Follow iff it survived de-duplication.  So no Like by the viewer
    and no Like or Announce of a post owned by someone else is in the
    output. *)
Theorem filtered_like_repost_follow :
  forall (userProfile : option ActorProperties) (page : Page) (a : Activity),
    (type a = LIKE ->
       (In a (filtered userProfile page) <->
          In a (removeDuplicates (data page))
          /\ actorId a <> profileId userProfile
          /\ attributedToId a = profileId userProfile))
    /\ (type a = REPOST ->
          (In a (filtered userProfile page) <->
             In a (removeDuplicates (data page))
             /\ attributedToId a = profileId userProfile))
    /\ (type a = FOLLOW ->
          (In a (filtered userProfile page) <-> In a (removeDuplicates (data page))))
    /\ (type a = LIKE -> actorId a = profileId userProfile ->
          ~ In a (filtered userProfile page))
    /\ (type a = LIKE \/ type a = REPOST ->
          attributedToId a <> profileId userProfile ->
          ~ In a (filtered userProfile page)).
Proof.
  intros userProfile page a.
  assert (HL : type a = LIKE ->
               (In a (filtered userProfile page) <->
                  In a (removeDuplicates (data page))
                  /\ actorId a <> profileId userProfile
                  /\ attributedToId a = profileId userProfile)).
  { intro Ht. unfold filtered. rewrite contentFilters_In.
    unfold notOwnLike, likeOfOwnPost, repostOfOwnPost, replyToOwnPost, notOwnCreate.
    type_tests a.
    rewrite <- strictEq_neq, <- strictEq_eq.
    destruct (strictEq (actorId a) (profileId userProfile)),
      (strictEq (attributedToId a) (profileId userProfile)); simpl;
      intuition discriminate. }
  assert (HR : type a = REPOST ->
               (In a (filtered userProfile page) <->
                  In a (removeDuplicates (data page))
                  /\ attributedToId a = profileId userProfile)).
  { intro Ht. unfold filtered. rewrite contentFilters_In.
    unfold notOwnLike, likeOfOwnPost, repostOfOwnPost, replyToOwnPost, notOwnCreate.
    type_tests a.
    rewrite <- strictEq_eq.
    destruct (strictEq (attributedToId a) (profileId userProfile)); simpl;
      intuition discriminate. }
  split; [exact HL|]. split; [exact HR|]. split; [|split].
  - intro Ht. unfold filtered. rewrite contentFilters_In.
    unfold notOwnLike, likeOfOwnPost, repostOfOwnPost, replyToOwnPost, notOwnCreate.
    type_tests a. tauto.
  - intros Ht E H. apply (HL Ht) in H. tauto.
  - intros [Ht|Ht] E H; [apply (HL Ht) in H | apply (HR Ht) in H]; tauto.
Qed.

Lemma filtered_like_repost_follow_witness :
  In (mkLike "2" (mkNote "x" viewer) bob)
     (filtered (Some viewer)
        {| data := [mkFollow "1" alice; mkLike "2" (mkNote "x" viewer) bob] |}).
Proof.
  apply (proj1 (filtered_like_repost_follow (Some viewer)
                  {| data := [mkFollow "1" alice; mkLike "2" (mkNote "x" viewer) bob] |}
                  (mkLike "2" (mkNote "x" viewer) bob))).
  - reflexivity.
  - split; [simpl; tauto|]. split; [discriminate | reflexivity].
Defined.

(** C6: for every viewer profile, with [V] the id it yields, a Create is in
    the filtered output iff it survived de-duplication, the owner id of the
    post it answers is [V] and its actor id differs from [V]; when the viewer
    has an id, a Create that names no owner of the post it answers (missing
    [inReplyTo] or [attributedTo]) is left out, and no step of the filter can
    fail. *)
Theorem filtered_create :
  forall (userProfile : option ActorProperties) (page : Page) (a : Activity),
    type a = CREATE ->
    (In a (filtered userProfile page) <->
       In a (removeDuplicates (data page))
       /\ inReplyToAttributedToId a = profileId userProfile
       /\ actorId a <> profileId userProfile)
    /\ (forall V, profileId userProfile = Some V -> replyOwnerMissing a ->
          ~ In a (filtered userProfile page)).
Proof.
  intros userProfile page a Ht.
  assert (HC : In a (filtered userProfile page) <->
               In a (removeDuplicates (data page))
               /\ inReplyToAttributedToId a = profileId userProfile
               /\ actorId a <> profileId userProfile).
  { unfold filtered. rewrite contentFilters_In.
    unfold notOwnLike, likeOfOwnPost, repostOfOwnPost, replyToOwnPost, notOwnCreate.
    type_tests a.
    rewrite <- strictEq_neq, <- strictEq_eq.
    destruct (strictEq (actorId a) (profileId userProfile)),
      (strictEq (inReplyToAttributedToId a) (profileId userProfile)); simpl;
      intuition discriminate. }
  split; [exact HC|].
  intros V HV Hmiss H. apply HC in H. destruct H as [_ [E _]].
  rewrite HV in E. unfold replyOwnerMissing in Hmiss.
  unfold inReplyToAttributedToId in E.
  destruct (object a) as [o|]; [|discriminate].
  destruct (object_inReplyTo o) as [|url|r]; try discriminate.
  rewrite Hmiss in E. discriminate.
Qed.

Lemma filtered_create_witness :
  In (mkReply "5" bob viewer None (Some "hello"))
     (filtered (Some viewer)
        {| data := [mkReply "5" bob viewer None (Some "hello")] |}).
Proof.
  apply (proj1 (filtered_create (Some viewer)
                  {| data := [mkReply "5" bob viewer None (Some "hello")] |}
                  (mkReply "5" bob viewer None (Some "hello")) eq_refl)).
  split; [simpl; tauto|]. split; [reflexivity | discriminate].
Defined.

(** ** Order of the groups *)

Lemma Forall2_entries {V : Type} (P : string -> V -> Prop) (o : JsObject.t V) :
  (forall k v, In (k, v) o -> P k v) -> Forall2 P (map fst o) (map snd o).
Proof.
  induction o as [|[k v] o IH]; simpl; intro H; constructor.
  - apply H. now left.
  - apply IH. intros k' v' Hin. apply H. now right.
Qed.

Lemma StronglySorted_map_filter {A : Type} (f : A -> nat) (q : A -> bool) (l : list A) :
  StronglySorted lt (map f l) -> StronglySorted lt (map f (filter q l)).
Proof.
  induction l as [|x l IH]; simpl; intro H; [constructor|].
  inversion H as [|? ? Hs Hall]; subst.
  destruct (q x); simpl; [|now apply IH].
  constructor; [now apply IH|].
  rewrite Forall_forall in *. intros n Hn.
  apply in_map_iff in Hn. destruct Hn as [y [<- Hy]].
  apply filter_In in Hy. apply Hall, in_map. tauto.
Qed.

Lemma StronglySorted_map_S (l : list nat) :
  StronglySorted lt l -> StronglySorted lt (map S l).
Proof.
  induction 1 as [|x l Hs IH Hall]; simpl; constructor; [exact IH|].
  rewrite Forall_forall in *. intros n Hn.
  apply in_map_iff in Hn. destruct Hn as [m [<- Hm]].
  apply Hall in Hm. lia.
Qed.

Lemma firstBearing_sorted (l : list Activity) :
  StronglySorted lt
    (map (fun k => firstBearing k l) (distinctKeys (map groupKey l))).
Proof.
  unfold distinctKeys. induction l as [|a l IH]; simpl; [constructor|].
  rewrite String.eqb_refl.
  set (q := fun k' => negb (String.eqb (groupKey a) k')).
  set (D := firstOccurrences String.eqb (map groupKey l)) in *.
  assert (E : map (fun k => if String.eqb (groupKey a) k then 0
                            else S (firstBearing k l)) (filter q D)
              = map S (map (fun k => firstBearing k l) (filter q D))).
  { rewrite map_map. apply map_ext_in. intros k Hk.
    apply filter_In in Hk. destruct Hk as [_ Hk]. unfold q in Hk.
    apply negb_true_iff in Hk. now rewrite Hk. }
  rewrite E. constructor.
  - apply StronglySorted_map_S. now apply StronglySorted_map_filter.
  - apply Forall_forall. intros n Hn.
    apply in_map_iff in Hn. destruct Hn as [m [<- _]]. lia.
Qed.

Lemma StronglySorted_nth_lt (l : list nat) (i j x y : nat) :
  StronglySorted lt l -> nth_error l i = Some x -> nth_error l j = Some y ->
  i < j -> x < y.
Proof.
  intro H. revert i j. induction H as [|z l Hs IH Hall]; intros i j Hi Hj Hlt.
  - destruct i; discriminate.
  - destruct j as [|j]; [lia|]. simpl in Hj. destruct i as [|i]; simpl in Hi.
    + injection Hi as <-. rewrite Forall_forall in Hall.
      apply Hall. eapply nth_error_In; eauto.
    + apply (IH i j); [assumption | assumption | lia].
Qed.

Lemma StronglySorted_nth_iff (l : list nat) (i j x y : nat) :
  StronglySorted lt l -> nth_error l i = Some x -> nth_error l j = Some y ->
  (i < j <-> x < y).
Proof.
  intros H Hi Hj. split; [now apply (StronglySorted_nth_lt l i j)|].
  intro Hxy. destruct (Nat.lt_trichotomy i j) as [Hlt|[Heq|Hgt]]; [exact Hlt| |].
  - subst j. rewrite Hi in Hj. injection Hj as <-. lia.
  - pose proof (StronglySorted_nth_lt l j i y x H Hj Hi Hgt). lia.
Qed.

Lemma firstBearing_bound (k : string) (l : list Activity) :
  In k (map groupKey l) -> firstBearing k l < length l.
Proof.
  induction l as [|a l IH]; simpl; [intros []|].
  destruct (String.eqb (groupKey a) k) eqn:E; [lia|].
  apply String.eqb_neq in E. intros [H|H]; [contradiction|].
  apply IH in H. lia.
Qed.

Lemma collected_NoDup (l : list Activity) (groups : JsObject.t GroupedActivity) :
  collected l groups -> NoDup (map fst groups).
Proof. intros [Hkeys _]. rewrite Hkeys. apply NoDup_distinctKeys. Qed.

Lemma collected_entry (l : list Activity) (groups : JsObject.t GroupedActivity)
  (k : string) (g : GroupedActivity) :
  collected l groups -> In (k, g) groups ->
  exists first rest,
    bearing k l = first :: rest /\ g = groupFrom first (first :: rest).
Proof.
  intros Hc Hin. destruct Hc as [Hkeys Hgroups]. apply Hgroups.
  apply In_get; [|exact Hin]. rewrite Hkeys. apply NoDup_distinctKeys.
Qed.

(** ** The claims about groupActivities *)

(** C1, as amended: the grouping key of an activity depends only on its type,
    its object id and its id.  Every Follow has the one key that only Follows
    have; a Like or Announce whose object id is present and not empty is
    keyed by that id and shares its key exactly with the activities of its
    own type on the same object; a Create is keyed by its own id and shares
    its key only with Creates whose id reads the same; a Like or Announce
    whose object id is absent or empty has the empty key.  All activities
    bearing one key are fed to one group of the output, which has one group
    per distinct key.  The page Follow(A), Like(X,B), Follow(C) yields the
    groups Follow with actors A, C and Like with actor B. *)
Theorem groupKey_by_type_and_ids :
  (forall a b, type a = type b -> objectId a = objectId b -> id a = id b ->
               groupKey a = groupKey b)
  /\ (forall a, type a = FOLLOW ->
        groupKey a = "follow_Follow"
        /\ forall b, groupKey b = groupKey a <-> type b = FOLLOW)
  /\ (forall a i, type a = LIKE -> objectId a = Some i -> i <> EmptyString ->
        groupKey a = ("like_" ++ i)%string
        /\ forall b, groupKey b = groupKey a <-> type b = LIKE /\ objectId b = Some i)
  /\ (forall a i, type a = REPOST -> objectId a = Some i -> i <> EmptyString ->
        groupKey a = ("announce_" ++ i)%string
        /\ forall b, groupKey b = groupKey a <-> type b = REPOST /\ objectId b = Some i)
  /\ (forall a, type a = CREATE ->
        groupKey a = ("create_" ++ toText (id a))%string
        /\ forall b, groupKey b = groupKey a <->
                     type b = CREATE /\ toText (id b) = toText (id a))
  /\ (forall a, type a = LIKE \/ type a = REPOST ->
        objectId a = None \/ objectId a = Some EmptyString ->
        groupKey a = EmptyString)
  /\ (forall activities gs, groupActivities activities = Ok gs ->
        length gs = length (distinctKeys (map groupKey activities))
        /\ forall a, In a activities ->
             exists first rest,
               bearing (groupKey a) activities = first :: rest
               /\ In a (first :: rest)
               /\ In (groupFrom first (first :: rest)) gs)
  /\ groupActivities followLikeFollow
     = Ok [ {| group_type := FOLLOW; actors := [Some alice; Some carol];
               group_object := None; group_id := Some "1" |};
            {| group_type := LIKE; actors := [Some bob];
               group_object := Some (mkNote "x" viewer); group_id := Some "2" |} ].
Proof.
  split; [exact groupKey_ext|].
  split.
  { intros a Ha. split; [now apply groupKey_follow|].
    intro b. now apply follow_key_shared. }
  split.
  { intros a i Ha Hi Hne. split.
    - rewrite (groupKey_like a Ha), Hi. simpl.
      apply String.eqb_neq in Hne. now rewrite Hne.
    - intro b. now apply like_key_shared. }
  split.
  { intros a i Ha Hi Hne. split.
    - rewrite (groupKey_repost a Ha), Hi. simpl.
      apply String.eqb_neq in Hne. now rewrite Hne.
    - intro b. now apply repost_key_shared. }
  split.
  { intros a Ha. split; [now apply groupKey_create|].
    intro b. now apply create_key_shared. }
  split; [exact empty_key|].
  split; [|reflexivity].
  intros activities gs H. apply groupActivities_Ok in H.
  destruct H as [groups [Hg ->]]. apply collectGroups_collected in Hg.
  split.
  - rewrite length_map. destruct Hg as [Hkeys _].
    now rewrite <- Hkeys, length_map.
  - intros a Ha.
    assert (Hk : In (groupKey a) (map fst groups)).
    { destruct Hg as [Hkeys _]. rewrite Hkeys. apply In_distinctKeys.
      now apply in_map. }
    apply in_map_iff in Hk. destruct Hk as [[k g] [Ek Hin]]. simpl in Ek. subst k.
    destruct (collected_entry _ _ _ _ Hg Hin) as [first [rest [Hb ->]]].
    exists first, rest. split; [exact Hb|]. split.
    + rewrite <- Hb. unfold bearing. apply filter_In.
      split; [exact Ha | apply String.eqb_refl].
    + change (groupFrom first (first :: rest))
        with (snd (groupKey a, groupFrom first (first :: rest))).
      now apply in_map.
Qed.

Lemma groupKey_by_type_and_ids_witness :
  groupKey (mkLike "2" (mkNote "x" viewer) bob) = "like_x"
  /\ groupKey (mkFollow "3" carol) = groupKey (mkFollow "1" alice).
Proof.
  destruct groupKey_by_type_and_ids as [_ [Hfollow [Hlike _]]].
  split.
  - refine (proj1 (Hlike (mkLike "2" (mkNote "x" viewer) bob) "x" eq_refl eq_refl _)).
    discriminate.
  - apply (proj2 (Hfollow (mkFollow "1" alice) eq_refl)). reflexivity.
Defined.

(** C1, as stated, fails: an object id that is present but empty does not key
    the Like by that id; the Like and the Announce both get the empty key and
    end in one group. *)
Lemma empty_object_id_is_not_a_key :
  objectId likeOfUnnamed = Some EmptyString
  /\ objectId repostOfUnnamed = Some EmptyString
  /\ groupKey likeOfUnnamed <> ("like_" ++ EmptyString)%string
  /\ groupKey repostOfUnnamed = groupKey likeOfUnnamed
  /\ groupActivities [likeOfUnnamed; repostOfUnnamed]
     = Ok [ {| group_type := LIKE; actors := [Some bob; Some carol];
               group_object := object likeOfUnnamed; group_id := Some "7" |} ].
Proof.
  repeat split; try reflexivity. discriminate.
Qed.

(** C2: whenever every activity has its actor, [groupActivities] returns; and
    whatever it returns has one group per distinct grouping key, where the
    group of a key takes its type, object and id from the first activity
    bearing the key and its actors are the distinct actors (by id) of all
    activities bearing the key, in order of first occurrence: no two of them
    share an id, the actor of every such activity is among them up to its id,
    and no group is without an actor. *)
Theorem groupActivities_groups :
  forall activities : list Activity,
    (Forall hasActor activities -> exists gs, groupActivities activities = Ok gs)
    /\ forall gs, groupActivities activities = Ok gs ->
         length gs = length (distinctKeys (map groupKey activities))
         /\ Forall2
              (fun k g =>
                 exists first rest,
                   bearing k activities = first :: rest
                   /\ group_type g = type first
                   /\ group_object g = object first
                   /\ group_id g = id first
                   /\ actors g = firstSeenActors (map actor (first :: rest))
                   /\ ForallOrdPairs (fun x y => sameActorId x y = false) (actors g)
                   /\ (forall a, In a (first :: rest) -> hasActor a ->
                         existsb (sameActorId (actor a)) (actors g) = true)
                   /\ actors g <> [])
              (distinctKeys (map groupKey activities)) gs.
Proof.
  intro activities. split; [apply groupActivities_total|].
  intros gs H. apply groupActivities_Ok in H.
  destruct H as [groups [Hg ->]]. apply collectGroups_collected in Hg.
  pose proof Hg as [Hkeys _]. rewrite <- Hkeys. split.
  - now rewrite !length_map.
  - apply Forall2_entries. intros k g Hin.
    destruct (collected_entry _ _ _ _ Hg Hin) as [first [rest [Hb ->]]].
    exists first, rest.
    split; [exact Hb|]. split; [reflexivity|]. split; [reflexivity|].
    split; [reflexivity|]. split; [reflexivity|]. split; [|split].
    + apply firstOccurrences_distinct.
    + intros a Ha Hact.
      change (actors (groupFrom first (first :: rest)))
        with (firstOccurrences sameActorId (map actor (first :: rest))).
      rewrite (existsb_firstOccurrences sameActorId sameActorId_sym sameActorId_trans).
      apply existsb_exists. exists (actor a). split; [now apply in_map|].
      unfold hasActor in Hact. destruct (actor a); [|congruence].
      apply strictEq_refl.
    + discriminate.
Qed.

Lemma groupActivities_groups_witness :
  exists gs, groupActivities followLikeFollow = Ok gs /\ length gs = 2.
Proof.
  destruct (groupActivities_groups followLikeFollow) as [Hreturns Hgroups].
  destruct Hreturns as [gs Hgs].
  { repeat constructor; discriminate. }
  exists gs. split; [exact Hgs|].
  exact (proj1 (Hgroups gs Hgs)).
Defined.

(** C3: whenever every activity has its actor, [groupActivities] returns; and
    what it returns is the values of the map [groups] in creation order, that
    is, in the order in which the keys first occur in the input: of two
    groups, the one whose key is first borne by an earlier activity comes
    first, and nothing re-sorts them. *)
Theorem groupActivities_order :
  forall activities : list Activity,
    (Forall hasActor activities -> exists gs, groupActivities activities = Ok gs)
    /\ forall gs, groupActivities activities = Ok gs ->
         exists groups,
           collectGroups activities = Ok groups
           /\ gs = JsObject.values groups
           /\ JsObject.values groups = map snd groups
           /\ map fst groups = distinctKeys (map groupKey activities)
           /\ (forall k g, In (k, g) groups ->
                 firstBearing k activities < length activities)
           /\ forall i j ki gi kj gj,
                nth_error groups i = Some (ki, gi) ->
                nth_error groups j = Some (kj, gj) ->
                (i < j <-> firstBearing ki activities < firstBearing kj activities).
Proof.
  intro activities. split; [apply groupActivities_total|].
  intros gs H. apply groupActivities_Ok in H.
  destruct H as [groups [Hg ->]]. exists groups.
  pose proof (collectGroups_collected _ _ Hg) as Hc.
  pose proof Hc as [Hkeys _].
  split; [exact Hg|]. split; [symmetry; now apply (collected_values activities)|].
  split; [now apply (collected_values activities)|]. split; [exact Hkeys|]. split.
  - intros k g Hin. apply firstBearing_bound, In_distinctKeys.
    rewrite <- Hkeys. change k with (fst (k, g)). now apply in_map.
  - intros i j ki gi kj gj Hi Hj.
    apply (StronglySorted_nth_iff
             (map (fun k => firstBearing k activities)
                (distinctKeys (map groupKey activities)))).
    + apply firstBearing_sorted.
    + rewrite <- Hkeys, map_map.
      exact (map_nth_error (fun e => firstBearing (fst e) activities) _ _ Hi).
    + rewrite <- Hkeys, map_map.
      exact (map_nth_error (fun e => firstBearing (fst e) activities) _ _ Hj).
Qed.

Lemma groupActivities_order_witness :
  exists gs, groupActivities followLikeFollow = Ok gs
             /\ map group_type gs = [FOLLOW; LIKE].
Proof.
  destruct (groupActivities_order followLikeFollow) as [Hreturns _].
  destruct Hreturns as [gs Hgs].
  { repeat constructor; discriminate. }
  exists gs. split; [exact Hgs|].
  assert (E : Ok gs = groupActivities followLikeFollow) by (now rewrite Hgs).
  vm_compute in E. now injection E as ->.
Defined.

(** ** Badge and description *)

Lemma truncate_length (text : string) (n : nat) :
  String.length (truncate text n) <= n.
Proof.
  unfold truncate. revert text. induction n as [|n IH]; intro text.
  - destruct text; simpl; lia.
  - destruct text as [|c text]; simpl; [lia|]. specialize (IH text). lia.
Qed.

Lemma replyContent_quotedText (strip : string -> string) (r : InReplyToObject) :
  replyContent strip r = strip (quotedText r).
Proof.
  unfold replyContent, quotedText, truthy.
  destruct (inReplyTo_name r) as [n|]; simpl; [|reflexivity].
  now destruct (String.eqb n EmptyString).
Qed.

Lemma actorText_nonempty (group : GroupedActivity) (nodes : list node) :
  actorText group = Ok nodes -> nodes <> [].
Proof.
  unfold actorText. destruct (firstActor group); [|discriminate].
  intro H. injection H as <-. discriminate.
Qed.

Lemma description_create (strip : string -> string) (group : GroupedActivity) :
  group_type group = CREATE ->
  NotificationGroupDescription strip group
  = (actorText <- actorText group ;;
     match fullInReplyTo group with
     | Some r =>
         Ok (actorText
             ++ [Text " replied to your post ";
                 Span "font-semibold" (truncate (strip (quotedText r)) 80)])
     | None => Ok []
     end).
Proof.
  intro Ht. unfold NotificationGroupDescription. rewrite Ht.
  destruct (actorText group) as [nodes|]; simpl; [|reflexivity].
  destruct (fullInReplyTo group) as [r|]; [|reflexivity].
  now rewrite replyContent_quotedText.
Qed.

(** C7, as amended: the description of a Create group is rendered only when
    [object.inReplyTo] is a full object, and it is rendered then as soon as
    the group has its first actor; its quoted excerpt is the name of the
    answered post when that is present and not empty, otherwise its content,
    stripped of markup and cut to 80 characters, so it never has more than 80
    characters. *)
Theorem reply_description :
  forall (strip : string -> string) (group : GroupedActivity),
    group_type group = CREATE ->
    (forall nodes,
        NotificationGroupDescription strip group = Ok nodes -> nodes <> [] ->
        exists r,
          fullInReplyTo group = Some r
          /\ excerpt nodes = Some (truncate (strip (quotedText r)) 80))
    /\ (forall r first,
          fullInReplyTo group = Some r -> firstActor group = Some first ->
          exists nodes,
            NotificationGroupDescription strip group = Ok nodes
            /\ nodes <> []
            /\ excerpt nodes = Some (truncate (strip (quotedText r)) 80))
    /\ (forall r, String.length (truncate (strip (quotedText r)) 80) <= 80)
    /\ (forall r n, inReplyTo_name r = Some n -> n <> EmptyString ->
          quotedText r = n)
    /\ (forall r, inReplyTo_name r = None \/ inReplyTo_name r = Some EmptyString ->
          quotedText r = orEmpty (inReplyTo_content r)).
Proof.
  intros strip group Ht. rewrite (description_create strip group Ht).
  split; [|split; [|split; [|split]]].
  - intros nodes H Hne. apply bind_Ok in H. destruct H as [names [_ H]].
    destruct (fullInReplyTo group) as [r|].
    + exists r. split; [reflexivity|]. injection H as <-.
      unfold excerpt. now rewrite rev_app_distr.
    + injection H as <-. congruence.
  - intros r first Hr Hf. rewrite Hr.
    destruct (actorText group) as [names|] eqn:Hn.
    + simpl. eexists. split; [reflexivity|]. split.
      * intro E. apply app_eq_nil in E. destruct E as [_ E]. discriminate.
      * unfold excerpt. now rewrite rev_app_distr.
    + unfold actorText in Hn. rewrite Hf in Hn. discriminate.
  - intro r. apply truncate_length.
  - intros r n Hn Hne. unfold quotedText. rewrite Hn.
    apply String.eqb_neq in Hne. now rewrite Hne.
  - intros r [Hn|Hn]; unfold quotedText; now rewrite Hn.
Qed.

Lemma reply_description_witness :
  exists nodes,
    NotificationGroupDescription stripHtml (replyGroup None (Some longContent))
    = Ok nodes
    /\ excerpt nodes = Some (string_of_list_ascii (repeat "a"%char 80)).
Proof.
  destruct (reply_description stripHtml (replyGroup None (Some longContent)) eq_refl)
    as [_ [Hrendered _]].
  destruct (Hrendered _ bob eq_refl eq_refl) as [nodes [Hn [_ He]]].
  exists nodes. split; [exact Hn|]. rewrite He. reflexivity.
Defined.

(** C7, as stated, fails: a name that is present but empty is passed over
    and the content is quoted. *)
Lemma empty_name_is_passed_over :
  (exists r, fullInReplyTo (replyGroup (Some EmptyString) (Some "<p>hello</p>")) = Some r
             /\ inReplyTo_name r = Some EmptyString)
  /\ (nodes <- NotificationGroupDescription stripHtml
                 (replyGroup (Some EmptyString) (Some "<p>hello</p>")) ;;
      Ok (excerpt nodes))
     = Ok (Some "hello")
  /\ truncate (stripHtml EmptyString) 80 <> "hello".
Proof.
  split; [eexists; split; reflexivity|].
  split; [reflexivity | discriminate].
Qed.

(** C8, as amended: the badge is fixed by the type (Follow gives follow, Like
    like, Announce repost, Create reply); the actors are phrased as the first
    actor's name, joined to the second by "and" when there are two, by a
    comma when more follow, with "and others" after the second when there
    are more than two; a Follow group reads as that phrase followed by
    "started following you", with no full stop: the two follows by Alice and
    Bob are grouped as one Follow group, described as
    "Alice and Bob started following you". *)
Theorem badge_and_actor_phrase :
  (forall g, group_type g = FOLLOW -> getActivityBadge g = Some "follow")
  /\ (forall g, group_type g = LIKE -> getActivityBadge g = Some "like")
  /\ (forall g, group_type g = REPOST -> getActivityBadge g = Some "repost")
  /\ (forall g, group_type g = CREATE -> getActivityBadge g = Some "reply")
  /\ (forall g a, actors g = [Some a] ->
        actorText g = Ok [Span actorClass (orEmpty (actor_name a))])
  /\ (forall g a b, actors g = [Some a; Some b] ->
        actorText g
        = Ok [Span actorClass (orEmpty (actor_name a)); Text " and ";
              Span actorClass (orEmpty (actor_name b))])
  /\ (forall g a b c rest, actors g = Some a :: Some b :: c :: rest ->
        actorText g
        = Ok [Span actorClass (orEmpty (actor_name a)); Text ", ";
              Span actorClass (orEmpty (actor_name b)); Text " and others"])
  /\ (forall strip g names, group_type g = FOLLOW -> actorText g = Ok names ->
        NotificationGroupDescription strip g
        = Ok (names ++ [Text " started following you"]))
  /\ groupPages None [ {| data := [mkFollow "1" alice; mkFollow "2" bob] |} ]
     = Ok [aliceAndBob]
  /\ (nodes <- NotificationGroupDescription stripHtml aliceAndBob ;;
      Ok (textContent nodes))
     = Ok "Alice and Bob started following you".
Proof.
  repeat split.
  - intros g H. unfold getActivityBadge. now rewrite H.
  - intros g H. unfold getActivityBadge. now rewrite H.
  - intros g H. unfold getActivityBadge. now rewrite H.
  - intros g H. unfold getActivityBadge. now rewrite H.
  - intros g a H. unfold actorText, firstActor, secondActor, otherActors.
    now rewrite H.
  - intros g a b H. unfold actorText, firstActor, secondActor, otherActors.
    now rewrite H.
  - intros g a b c rest H. unfold actorText, firstActor, secondActor, otherActors.
    now rewrite H.
  - intros strip g names Ht Hn. unfold NotificationGroupDescription.
    now rewrite Hn, Ht.
Qed.

Lemma badge_and_actor_phrase_witness :
  getActivityBadge aliceAndBob = Some "follow"
  /\ actorText aliceAndBob
     = Ok [Span actorClass "Alice"; Text " and "; Span actorClass "Bob"].
Proof.
  destruct badge_and_actor_phrase as [Hbadge [_ [_ [_ [_ [Htwo _]]]]]].
  split.
  - apply (Hbadge aliceAndBob). reflexivity.
  - apply (Htwo aliceAndBob alice bob). reflexivity.
Defined.

(** C8, as stated, fails: the description of the two follows ends without a
    full stop. *)
Lemma follow_description_has_no_full_stop :
  (nodes <- NotificationGroupDescription stripHtml aliceAndBob ;;
   Ok (textContent nodes))
  <> Ok "Alice and Bob started following you.".
Proof. vm_compute. discriminate. Qed.

(** ** Whole pages *)

Lemma flatMap_total {A B : Type} (f : A -> js (list B)) (l : list A) :
  (forall a, In a l -> exists ys, f a = Ok ys) ->
  exists zs, flatMap f l = Ok zs.
Proof.
  induction l as [|a l IH]; simpl; intro H; [eauto|].
  destruct (H a (or_introl eq_refl)) as [ys ->].
  destruct IH as [zs ->]; [intros b Hb; apply H; now right|].
  simpl. eauto.
Qed.

Lemma flatMap_one {A B : Type} (f : A -> js (list B)) (a : A) :
  flatMap f [a] = f a.
Proof. simpl. destruct (f a) as [ys|]; simpl; [|reflexivity]. now rewrite app_nil_r. Qed.

Lemma filtered_hasActor (userProfile : option ActorProperties) (page : Page) :
  Forall hasActor (data page) -> Forall hasActor (filtered userProfile page).
Proof.
  rewrite !Forall_forall. intros H a Ha. apply H.
  now apply (filtered_incl userProfile).
Qed.

(** C9, as stated, fails: an activity without [actor] that joins an existing
    group makes the computation raise a [TypeError]. *)
Lemma missing_actor_raises :
  actor (followWithoutActor "2") = None
  /\ In (followWithoutActor "2") (data pageWithoutActor)
  /\ groupedActivities (Some viewer) (Some [pageWithoutActor]) = TypeError.
Proof. split; [reflexivity|]. split; [simpl; tauto | reflexivity]. Qed.

(** C9, as amended: for every viewer profile and every fetched data whose
    activities all carry an actor, whatever else they lack (object,
    attributedTo, inReplyTo, ids), filtering and grouping return without
    raising an error.  A Like or Announce without object or object id is
    grouped under the empty key, and when the viewer has an id a Like,
    Announce or Create without object is left out by the filters. *)
Theorem groupedActivities_returns :
  forall (userProfile : option ActorProperties) (queryData : option (list Page)),
    (forall pages page, queryData = Some pages -> In page pages ->
                        Forall hasActor (data page)) ->
    (exists entries, groupedActivities userProfile queryData = Ok entries)
    /\ (forall a, type a = LIKE \/ type a = REPOST -> objectId a = None ->
          groupKey a = EmptyString)
    /\ (forall V page a, profileId userProfile = Some V -> object a = None ->
          type a = LIKE \/ type a = REPOST \/ type a = CREATE ->
          ~ In a (filtered userProfile page)).
Proof.
  intros userProfile queryData Hactors. split; [|split].
  - destruct queryData as [pages|]; simpl; [|eauto].
    destruct (flatMap_total
                (fun page => groupActivities (filtered userProfile page)) pages)
      as [gs Hgs].
    + intros page Hpage. apply groupActivities_total, filtered_hasActor.
      now apply (Hactors pages).
    + unfold groupPages. rewrite Hgs. simpl. eauto.
  - intros a Ht Ho. apply empty_key; [exact Ht | now left].
  - intros V page a HV Ho Ht H.
    unfold filtered in H. apply contentFilters_In in H.
    destruct H as [_ [_ [Hl [Hr [Hc _]]]]].
    unfold likeOfOwnPost, repostOfOwnPost, replyToOwnPost in Hl, Hr, Hc.
    unfold attributedToId, inReplyToAttributedToId in Hl, Hr, Hc.
    rewrite Ho, HV in Hl, Hr, Hc.
    destruct Ht as [Ht|[Ht|Ht]]; rewrite Ht in Hl, Hr, Hc; discriminate.
Qed.

Lemma groupedActivities_returns_witness :
  exists entries,
    groupedActivities (Some viewer)
      (Some [ {| data := [mkFollow "1" alice;
                          {| id := None; type := LIKE; actor := Some bob;
                             object := None |};
                          mkFollow "3" carol] |} ])
    = Ok entries.
Proof.
  refine (proj1 (groupedActivities_returns (Some viewer) _ _)).
  intros pages page E Hin. injection E as <-.
  destruct Hin as [<-|[]]. repeat constructor; discriminate.
Defined.

(** C10: the groups of several pages are the groups of each page, computed
    from that page alone, one list after the other.  Hence an activity whose
    id was seen on an earlier page is kept, and groups of different pages are
    not merged: two Follows on two pages give two Follow groups. *)
Theorem pages_grouped_independently :
  forall (userProfile : option ActorProperties) (pages1 pages2 : list Page),
    groupPages userProfile (pages1 ++ pages2)
    = (ys <- groupPages userProfile pages1 ;;
       zs <- groupPages userProfile pages2 ;;
       Ok (ys ++ zs))
    /\ (forall page,
          groupPages userProfile [page] = groupActivities (filtered userProfile page))
    /\ groupPages userProfile
         [ {| data := [mkFollow "1" alice] |}; {| data := [mkFollow "2" bob] |} ]
       = Ok [groupOf FOLLOW [alice] None "1"; groupOf FOLLOW [bob] None "2"]
    /\ groupPages userProfile
         [ {| data := [mkFollow "1" alice] |}; {| data := [mkFollow "1" alice] |} ]
       = Ok [groupOf FOLLOW [alice] None "1"; groupOf FOLLOW [alice] None "1"]
    /\ groupPages userProfile
         [ {| data := [mkFollow "1" alice; mkFollow "2" bob] |} ]
       = Ok [groupOf FOLLOW [alice; bob] None "1"].
Proof.
  intros userProfile pages1 pages2. split; [apply flatMap_app|].
  split.
  { intro page. unfold groupPages.
    exact (flatMap_one (fun p => groupActivities (filtered userProfile p)) page). }
  repeat split.
Qed.

(** * Further properties of the views *)

(** ** Lookup and enumeration of a plain object *)

Lemma get_app {V : Type} (k : string) (o1 o2 : JsObject.t V) :
  JsObject.get k (o1 ++ o2)
  = match JsObject.get k o1 with Some v => Some v | None => JsObject.get k o2 end.
Proof.
  induction o1 as [|[k' v'] o1 IH]; simpl; [reflexivity|].
  now destruct (String.eqb k' k).
Qed.

Lemma get_filter_key {V : Type} (p : string -> bool) (k : string) (o : JsObject.t V) :
  JsObject.get k (filter (fun e => p (fst e)) o)
  = if p k then JsObject.get k o else None.
Proof.
  induction o as [|[k' v'] o IH]; simpl; [now destruct (p k)|].
  destruct (String.eqb k' k) eqn:E.
  - apply String.eqb_eq in E. subst k'. destruct (p k) eqn:Hp; simpl.
    + now rewrite String.eqb_refl.
    + exact IH.
  - destruct (p k'); simpl; [rewrite E|]; exact IH.
Qed.

Lemma get_insertSorted {V : Type} (k : string) (e : string * V) (o : JsObject.t V) :
  JsObject.get k (JsObject.insertSorted e o)
  = if String.eqb (fst e) k then Some (snd e) else JsObject.get k o.
Proof.
  destruct e as [ke ve]. simpl.
  induction o as [|[k' v'] o IH]; simpl; [reflexivity|].
  destruct (JsObject.indexValue ke <=? JsObject.indexValue k')%N eqn:Hle; simpl.
  - reflexivity.
  - rewrite IH. destruct (String.eqb k' k) eqn:E; [|reflexivity].
    apply String.eqb_eq in E. subst k'.
    destruct (String.eqb ke k) eqn:E'; [|reflexivity].
    apply String.eqb_eq in E'. subst ke.
    rewrite N.leb_refl in Hle. discriminate.
Qed.

Lemma get_ascending {V : Type} (k : string) (o : JsObject.t V) :
  JsObject.get k (JsObject.ascending o) = JsObject.get k o.
Proof.
  unfold JsObject.ascending. induction o as [|[k' v'] o IH]; simpl; [reflexivity|].
  rewrite get_insertSorted. simpl. now rewrite IH.
Qed.

(** Enumeration order does not change what a key holds. *)
Lemma get_ownProperties {V : Type} (k : string) (o : JsObject.t V) :
  JsObject.get k (JsObject.ownProperties o) = JsObject.get k o.
Proof.
  unfold JsObject.ownProperties.
  rewrite get_app, get_ascending.
  rewrite (get_filter_key JsObject.isArrayIndex).
  rewrite (get_filter_key (fun k' => negb (JsObject.isArrayIndex k'))).
  destruct (JsObject.isArrayIndex k); simpl; [|reflexivity].
  now destruct (JsObject.get k o).
Qed.





(** ** The open state of the rows *)

Lemma reads_toggled (k : string) (prev : JsObject.t bool) :
  reads k (toggleOpen k prev) = negb (reads k prev).
Proof. unfold toggleOpen, reads at 1. now rewrite get_set_same. Qed.

Lemma reads_untouched (groupId k : string) (prev : JsObject.t bool) :
  groupId <> k -> reads k (toggleOpen groupId prev) = reads k prev.
Proof.
  intro Hne. unfold toggleOpen, reads at 1.
  rewrite (get_set_other _ _ _ _ Hne). now rewrite get_ownProperties.
Qed.

(** X1: toggling one group flips what the state reads for its key and leaves
    what it reads for every other key unchanged, whatever the state held
    (also for a key that was never set, and for keys that look like array
    indices). *)
Theorem toggleOpen_flips_one_key :
  forall (groupId k : string) (prev : JsObject.t bool),
    reads k (toggleOpen groupId prev)
    = if String.eqb groupId k then negb (reads k prev) else reads k prev.
Proof.
  intros groupId k prev. destruct (String.eqb groupId k) eqn:E.
  - apply String.eqb_eq in E. subst k. apply reads_toggled.
  - apply String.eqb_neq in E. now apply reads_untouched.
Qed.

(** X2: toggling a group twice gives back a state that reads as before for
    every key, and toggles of two groups can be applied in either order. *)
Theorem toggleOpen_twice_and_commute :
  forall (a b k : string) (prev : JsObject.t bool),
    reads k (toggleOpen a (toggleOpen a prev)) = reads k prev
    /\ reads k (toggleOpen a (toggleOpen b prev))
       = reads k (toggleOpen b (toggleOpen a prev)).
Proof.
  intros a b k prev. split.
  - destruct (string_dec a k) as [->|Ha].
    + rewrite !reads_toggled. apply negb_involutive.
    + now rewrite !(reads_untouched a k) by exact Ha.
  - destruct (string_dec a k) as [->|Ha], (string_dec b k) as [Eb|Hb].
    + now subst b.
    + now rewrite reads_toggled, !(reads_untouched b k), reads_toggled by exact Hb.
    + subst b.
      now rewrite reads_toggled, !(reads_untouched a k), reads_toggled by exact Ha.
    + now rewrite !(reads_untouched a k), !(reads_untouched b k),
        (reads_untouched a k) by assumption.
Qed.

(** ** Custom fields of the profile *)



(** ** What reaches the grouping *)

Lemma contentFilters_filter (userProfile : option ActorProperties) (l : list Activity) :
  contentFilters userProfile l = filter (passesFilters userProfile) l.
Proof.
  unfold contentFilters, passesFilters.
  induction l as [|a l IH]; simpl; [reflexivity|].
  destruct (notOwnLike userProfile a); simpl; [|exact IH].
  destruct (likeOfOwnPost userProfile a); simpl; [|exact IH].
  destruct (repostOfOwnPost userProfile a); simpl; [|exact IH].
  destruct (replyToOwnPost userProfile a); simpl; [|exact IH].
  destruct (notOwnCreate userProfile a); simpl; [|exact IH].
  now rewrite IH.
Qed.

Lemma Subsequence_refl {A : Type} (l : list A) : Subsequence l l.
Proof. induction l; [constructor | now apply Subsequence_keep]. Qed.

Lemma Subsequence_trans {A : Type} (l m n : list A) :
  Subsequence l m -> Subsequence m n -> Subsequence l n.
Proof.
  intros Hlm Hmn. revert l Hlm.
  induction Hmn as [|x m n Hmn IH|x m n Hmn IH]; intros l Hlm.
  - exact Hlm.
  - constructor. now apply IH.
  - inversion Hlm as [|y l' m' H|y l' m' H]; subst.
    + apply Subsequence_skip. now apply IH.
    + apply Subsequence_keep. now apply IH.
Qed.

Lemma Subsequence_filter {A : Type} (p : A -> bool) (l : list A) :
  Subsequence (filter p l) l.
Proof.
  induction l as [|x l IH]; simpl; [constructor|].
  destruct (p x); [apply Subsequence_keep | apply Subsequence_skip]; exact IH.
Qed.

Lemma Subsequence_filterFrom {A : Type} (q : A -> nat -> bool) (l : list A) (i : nat) :
  Subsequence (filterFrom q l i) l.
Proof.
  revert i. induction l as [|x l IH]; intro i; simpl; [constructor|].
  destruct (q x i); [apply Subsequence_keep | apply Subsequence_skip]; apply IH.
Qed.

Lemma Subsequence_length {A : Type} (l m : list A) :
  Subsequence l m -> length l <= length m.
Proof. induction 1; simpl; lia. Qed.

Lemma NoDup_ids_removeDuplicates (l : list Activity) :
  NoDup (map id (removeDuplicates l)).
Proof.
  induction l as [|a l IH] using rev_ind; [constructor|].
  rewrite removeDuplicates_snoc.
  destruct (existsb (fun b => strictEq (id b) (id a)) l) eqn:Ex; [exact IH|].
  rewrite map_app. apply NoDup_app; [exact IH | repeat constructor; intros [] |].
  intros i Hi [<-|[]].
  apply in_map_iff in Hi. destruct Hi as [b [Eb Hb]].
  rewrite <- (existsb_removeDuplicates (id a) l) in Ex.
  assert (Hex : existsb (fun b0 => strictEq (id b0) (id a)) (removeDuplicates l) = true).
  { apply existsb_exists. exists b. split; [exact Hb | now apply strictEq_eq]. }
  congruence.
Qed.

Lemma distinct_ids_filter (keep : Activity -> bool) (acts : list Activity) :
  NoDup (map id acts) -> NoDup (map id (filter keep acts)).
Proof.
  induction acts as [|a acts IH]; simpl; [trivial|].
  rewrite NoDup_cons_iff. intros [Hfresh Hrest].
  destruct (keep a); simpl; [|auto].
  apply NoDup_cons; [|auto].
  rewrite in_map_iff. intros [b [Eb Hb]]. apply filter_In in Hb.
  apply Hfresh. rewrite in_map_iff. exists b. tauto.
Qed.

Lemma NoDup_map_eq {A B : Type} (f : A -> B) (l : list A) (x y : A) :
  NoDup (map f l) -> In x l -> In y l -> f x = f y -> x = y.
Proof.
  induction l as [|z l IH]; simpl; intros H Hx Hy E; [contradiction|].
  inversion H as [|? ? Hz Hl]; subst.
  destruct Hx as [<-|Hx], Hy as [<-|Hy]; try reflexivity.
  - exfalso. apply Hz. rewrite E. now apply in_map.
  - exfalso. apply Hz. rewrite <- E. now apply in_map.
  - now apply IH.
Qed.

Lemma NoDup_ids_filtered (userProfile : option ActorProperties) (page : Page) :
  NoDup (map id (filtered userProfile page)).
Proof.
  unfold filtered. rewrite contentFilters_filter.
  apply distinct_ids_filter, NoDup_ids_removeDuplicates.
Qed.

Lemma In_filtered_iff (userProfile : option ActorProperties)
  (page : Page) (x : Activity) :
  In x (filtered userProfile page) <->
  passesFilters userProfile x = true /\ In x (removeDuplicates (data page)).
Proof. unfold filtered. rewrite contentFilters_filter, filter_In. tauto. Qed.

(** X4: an activity reaches the grouping exactly when it is the first record
    of the page with its id and passes the five viewer filters.  The filters
    run after the de-duplication, so when the first record with an id is
    filtered out, no later record with that id takes its place. *)
Theorem filtered_first_and_passing :
  forall (userProfile : option ActorProperties) (page : Page),
    (forall x, In x (filtered userProfile page) <->
               firstWithId (id x) (data page) = Some x
               /\ passesFilters userProfile x = true)
    /\ (forall a, firstWithId (id a) (data page) = Some a ->
                  passesFilters userProfile a = false ->
                  forall x, In x (filtered userProfile page) -> id x <> id a).
Proof.
  intros userProfile page.
  assert (H : forall x, In x (filtered userProfile page) <->
                        firstWithId (id x) (data page) = Some x
                        /\ passesFilters userProfile x = true).
  { intro x. unfold filtered. rewrite contentFilters_filter, filter_In. split.
    - intros [Hin Hp]. split; [now apply removeDuplicates_first | exact Hp].
    - intros [Hf Hp]. split; [now apply firstWithId_kept | exact Hp]. }
  split; [exact H|].
  intros a Ha Hfail x Hx E. apply H in Hx. destruct Hx as [Hf Hp].
  rewrite E, Ha in Hf. injection Hf as ->. congruence.
Qed.

Lemma filtered_first_and_passing_witness :
  ~ In (mkLike "2" (mkNote "x" viewer) bob)
      (filtered (Some viewer)
         {| data := [mkLike "2" (mkNote "y" alice) bob;
                     mkLike "2" (mkNote "x" viewer) bob] |}).
Proof.
  intro H.
  refine (proj2 (filtered_first_and_passing (Some viewer)
                   {| data := [mkLike "2" (mkNote "y" alice) bob;
                               mkLike "2" (mkNote "x" viewer) bob] |})
            (mkLike "2" (mkNote "y" alice) bob) eq_refl eq_refl _ H eq_refl).
Defined.

Lemma filtered_Subsequence (userProfile : option ActorProperties) (page : Page) :
  Subsequence (filtered userProfile page) (data page).
Proof.
  unfold filtered. rewrite contentFilters_filter.
  eapply Subsequence_trans; [apply Subsequence_filter|].
  unfold removeDuplicates, filterIndexed. apply Subsequence_filterFrom.
Qed.

(** X5: the activities that reach the grouping are activities of the page in
    their original relative order, none twice: no two of them share an id,
    and they are never more than the page holds. *)
Theorem filtered_keeps_order :
  forall (userProfile : option ActorProperties) (page : Page),
    Subsequence (filtered userProfile page) (data page)
    /\ NoDup (map id (filtered userProfile page))
    /\ length (filtered userProfile page) <= length (data page).
Proof.
  intros userProfile page.
  pose proof (filtered_Subsequence userProfile page) as H.
  split; [exact H|]. split; [apply NoDup_ids_filtered|].
  now apply Subsequence_length.
Qed.

(** ** The groups of a page *)

Lemma group_origin (l : list Activity) (gs : list GroupedActivity) (g : GroupedActivity) :
  groupActivities l = Ok gs -> In g gs ->
  exists first rest,
    bearing (groupKey first) l = first :: rest
    /\ In first l
    /\ g = groupFrom first (first :: rest).
Proof.
  intros H Hg. apply groupActivities_Ok in H. destruct H as [groups [Hc ->]].
  apply collectGroups_collected in Hc.
  apply in_map_iff in Hg. destruct Hg as [[k g'] [E Hin]]. simpl in E. subst g'.
  destruct (collected_entry _ _ _ _ Hc Hin) as [first [rest [Hb ->]]].
  assert (Hf : In first (bearing k l)) by (rewrite Hb; now left).
  apply bearing_incl in Hf. destruct Hf as [Hf Hk]. subst k.
  exists first, rest. tauto.
Qed.

Lemma NoDup_map_entries {V B : Type} (h : V -> B) (o : JsObject.t V) :
  NoDup (map fst o) ->
  (forall k v k' v', In (k, v) o -> In (k', v') o -> h v = h v' -> k = k') ->
  NoDup (map h (map snd o)).
Proof.
  induction o as [|[k v] o IH]; simpl; intros Hnd Hinj; [constructor|].
  inversion Hnd as [|? ? Hk Ho]; subst. constructor.
  - intro Hin. apply in_map_iff in Hin. destruct Hin as [v' [E Hv']].
    apply in_map_iff in Hv'. destruct Hv' as [[k' v''] [E' Hin]]. simpl in E'. subst v''.
    apply Hk. replace k with k'.
    + change k' with (fst (k', v')). now apply in_map.
    + symmetry. apply (Hinj k v k' v'); [now left | now right | now symmetry].
  - apply IH; [exact Ho|]. intros k1 v1 k2 v2 H1 H2. apply Hinj; now right.
Qed.

Lemma groupActivities_NoDup_ids (l : list Activity) (gs : list GroupedActivity) :
  NoDup (map id l) -> groupActivities l = Ok gs -> NoDup (map group_id gs).
Proof.
  intros Hnd H. apply groupActivities_Ok in H. destruct H as [groups [Hc ->]].
  apply collectGroups_collected in Hc.
  apply NoDup_map_entries; [now apply (collected_NoDup l)|].
  intros k g k' g' Hin Hin' E.
  destruct (collected_entry _ _ _ _ Hc Hin) as [f [r [Hb ->]]].
  destruct (collected_entry _ _ _ _ Hc Hin') as [f' [r' [Hb' ->]]].
  simpl in E.
  assert (Hf : In f (bearing k l)) by (rewrite Hb; now left).
  assert (Hf' : In f' (bearing k' l)) by (rewrite Hb'; now left).
  apply bearing_incl in Hf, Hf'. destruct Hf as [Hf <-], Hf' as [Hf' <-].
  now rewrite (NoDup_map_eq id l f f' Hnd Hf Hf' E).
Qed.

(** X6: the groups of one page have pairwise different ids; and when every
    activity of the page has a non-empty id, the rows of the page have
    pairwise different state keys, wherever they stand in the whole list, so
    toggling one row of a page never opens or closes another row of that
    page. *)
Theorem page_rows_have_own_keys :
  forall (userProfile : option ActorProperties) (page : Page)
         (gs : list GroupedActivity),
    groupActivities (filtered userProfile page) = Ok gs ->
    NoDup (map group_id gs)
    /\ ((forall a, In a (data page) -> truthy (id a) = true) ->
        forall i j gi gj n m,
          nth_error gs i = Some gi -> nth_error gs j = Some gj ->
          stateKey gi n = stateKey gj m -> i = j).
Proof.
  intros userProfile page gs H.
  assert (Hnd : NoDup (map group_id gs)).
  { apply (groupActivities_NoDup_ids (filtered userProfile page));
      [apply NoDup_ids_filtered | exact H]. }
  split; [exact Hnd|].
  intros Hids i j gi gj n m Hi Hj E.
  assert (Hkey : forall g, In g gs ->
                           truthy (group_id g) = true
                           /\ stateKey g = fun _ => toText (group_id g)).
  { intros g Hg. destruct (group_origin _ _ _ H Hg) as [f [r [_ [Hf ->]]]].
    apply filtered_incl in Hf. specialize (Hids f Hf).
    unfold stateKey. simpl. rewrite Hids. now split. }
  destruct (Hkey gi (nth_error_In _ _ Hi)) as [Ti Ki].
  destruct (Hkey gj (nth_error_In _ _ Hj)) as [Tj Kj].
  rewrite Ki, Kj in E.
  assert (Eid : group_id gi = group_id gj).
  { apply truthy_iff in Ti, Tj.
    destruct Ti as [si [Ei _]], Tj as [sj [Ej _]].
    rewrite Ei, Ej in *. simpl in E. now subst. }
  apply (proj1 (NoDup_nth_error (map group_id gs)) Hnd).
  - rewrite length_map. apply nth_error_Some. congruence.
  - rewrite (map_nth_error group_id _ _ Hi), (map_nth_error group_id _ _ Hj).
    now rewrite Eid.
Qed.

Lemma page_rows_have_own_keys_witness :
  exists gs,
    groupActivities (filtered (Some viewer) {| data := followLikeFollow |}) = Ok gs
    /\ NoDup (map group_id gs).
Proof.
  eexists. split; [reflexivity|].
  apply (page_rows_have_own_keys (Some viewer) {| data := followLikeFollow |}).
  reflexivity.
Defined.

Lemma filter_entries_length {V : Type} (p : V -> bool) (q : string -> bool)
  (o : JsObject.t V) :
  (forall k v, In (k, v) o -> p v = q k) ->
  length (filter p (map snd o)) = length (filter q (map fst o)).
Proof.
  induction o as [|[k v] o IH]; simpl; intro H; [reflexivity|].
  rewrite (H k v (or_introl eq_refl)).
  destruct (q k); simpl; rewrite IH; try reflexivity;
    intros k' v' Hin; apply H; now right.
Qed.

Lemma NoDup_count (k : string) (l : list string) :
  NoDup l ->
  length (filter (String.eqb k) l) = if existsb (String.eqb k) l then 1 else 0.
Proof.
  induction 1 as [|x l Hx Hl IH]; simpl; [reflexivity|].
  destruct (String.eqb k x) eqn:E; simpl; [|exact IH].
  apply String.eqb_eq in E. subst x. rewrite IH.
  destruct (existsb (String.eqb k) l) eqn:Ex; [|reflexivity].
  apply existsb_eqb_In in Ex. contradiction.
Qed.

(** X7: whatever the order of the activities, the groups of a sequence hold
    exactly one Follow group when the sequence has a Follow activity, and
    none otherwise. *)
Theorem one_follow_group :
  forall (l : list Activity) (gs : list GroupedActivity),
    groupActivities l = Ok gs ->
    length (filter (fun g => String.eqb (group_type g) FOLLOW) gs)
    = if existsb (fun a => String.eqb (type a) FOLLOW) l then 1 else 0.
Proof.
  intros l gs H. apply groupActivities_Ok in H. destruct H as [groups [Hc ->]].
  apply collectGroups_collected in Hc.
  rewrite (filter_entries_length
             (fun g => String.eqb (group_type g) FOLLOW)
             (String.eqb "follow_Follow") groups).
  - rewrite (NoDup_count _ _ (collected_NoDup _ _ Hc)).
    destruct Hc as [Hkeys _]. rewrite Hkeys.
    destruct (existsb (fun a => String.eqb (type a) FOLLOW) l) eqn:Ex.
    + apply existsb_exists in Ex. destruct Ex as [a [Ha Ea]].
      apply String.eqb_eq in Ea.
      replace (existsb (String.eqb "follow_Follow") (distinctKeys (map groupKey l)))
        with true; [reflexivity|].
      symmetry. apply existsb_eqb_In, In_distinctKeys.
      rewrite <- (groupKey_follow a Ea). now apply in_map.
    + destruct (existsb (String.eqb "follow_Follow") (distinctKeys (map groupKey l)))
        eqn:Ek; [|reflexivity].
      apply existsb_eqb_In, In_distinctKeys, in_map_iff in Ek.
      destruct Ek as [a [Ka Ha]].
      assert (Ta : type a = FOLLOW).
      { apply (follow_key_shared (mkFollow "f" alice) a eq_refl). exact Ka. }
      assert (Hex : existsb (fun a0 => String.eqb (type a0) FOLLOW) l = true).
      { apply existsb_exists. exists a. split; [exact Ha | now apply String.eqb_eq]. }
      congruence.
  - intros k g Hin.
    destruct (collected_entry _ _ _ _ Hc Hin) as [f [r [Hb ->]]].
    cbn [group_type groupFrom].
    assert (Hf : In f (bearing k l)) by (rewrite Hb; now left).
    apply bearing_incl in Hf. destruct Hf as [_ <-].
    destruct (String.eqb (type f) FOLLOW) eqn:Et.
    + apply String.eqb_eq in Et. rewrite (groupKey_follow f Et). reflexivity.
    + destruct (String.eqb "follow_Follow" (groupKey f)) eqn:Ek; [|reflexivity].
      apply String.eqb_eq in Ek. symmetry in Ek.
      apply (follow_key_shared (mkFollow "f" alice) f eq_refl) in Ek.
      apply String.eqb_neq in Et. contradiction.
Qed.

Lemma one_follow_group_witness :
  exists gs,
    groupActivities followLikeFollow = Ok gs
    /\ length (filter (fun g => String.eqb (group_type g) FOLLOW) gs) = 1.
Proof.
  eexists. split; [reflexivity|].
  exact (one_follow_group followLikeFollow _ eq_refl).
Defined.

Lemma firstOccurrences_length {A : Type} (same : A -> A -> bool) (l : list A) :
  length (firstOccurrences same l) <= length l.
Proof.
  induction l as [|x l IH]; simpl; [lia|].
  pose proof (Subsequence_length _ _
                (Subsequence_filter (fun y => negb (same x y))
                   (firstOccurrences same l))).
  lia.
Qed.

Lemma groupActivities_length (l : list Activity) (gs : list GroupedActivity) :
  groupActivities l = Ok gs -> length gs <= length l.
Proof.
  intro H. apply groupActivities_Ok in H. destruct H as [groups [Hc ->]].
  apply collectGroups_collected in Hc. destruct Hc as [Hkeys _].
  rewrite length_map, <- (length_map fst), Hkeys.
  unfold distinctKeys.
  rewrite <- (length_map groupKey l). apply firstOccurrences_length.
Qed.

(** X8: the list of notifications never has more rows than the fetched pages
    hold activities; it is empty when there is no page, and a page without
    activities adds no row. *)
Theorem groupPages_length :
  forall (userProfile : option ActorProperties) (pages : list Page)
         (gs : list GroupedActivity),
    groupPages userProfile pages = Ok gs ->
    length gs <= length (concat (map data pages))
    /\ (pages = [] -> gs = [])
    /\ (Forall (fun page => data page = []) pages -> gs = []).
Proof.
  intros userProfile pages. unfold groupPages.
  induction pages as [|page pages IH]; simpl; intros gs H.
  - injection H as <-. simpl. repeat split; trivial.
  - apply bind_Ok in H. destruct H as [ys [Hys H]].
    apply bind_Ok in H. destruct H as [zs [Hzs H]]. injection H as <-.
    destruct (IH zs Hzs) as [Hlen [_ Hempty]].
    pose proof (groupActivities_length _ _ Hys) as Hy.
    pose proof (Subsequence_length _ _ (filtered_Subsequence userProfile page)) as Hf.
    split; [rewrite !length_app; lia|]. split; [discriminate|].
    intro Hall. inversion Hall as [|? ? Hp Hps]; subst.
    rewrite (Hempty Hps), app_nil_r.
    rewrite Hp in Hf. destruct ys; [reflexivity | simpl in *; lia].
Qed.

Lemma groupPages_length_witness :
  exists gs,
    groupPages (Some viewer) [ {| data := followLikeFollow |}; {| data := [] |} ] = Ok gs
    /\ length gs <= 3.
Proof.
  eexists. split; [reflexivity|].
  exact (proj1 (groupPages_length (Some viewer)
                  [ {| data := followLikeFollow |}; {| data := [] |} ] _ eq_refl)).
Defined.

(** ** Clicking and rendering a row *)

Lemma passing_has_object (userProfile : option ActorProperties) (V : string)
  (a : Activity) :
  profileId userProfile = Some V ->
  passesFilters userProfile a = true ->
  type a = CREATE \/ type a = LIKE \/ type a = REPOST ->
  object a <> None.
Proof.
  intros HV Hp Ht Ho. unfold passesFilters in Hp.
  repeat (apply andb_true_iff in Hp; destruct Hp as [Hp ?]).
  unfold likeOfOwnPost, repostOfOwnPost, replyToOwnPost,
    attributedToId, inReplyToAttributedToId in *.
  rewrite Ho, HV in *.
  destruct Ht as [Ht|[Ht|Ht]]; rewrite Ht in *; discriminate.
Qed.

(** X9: when the viewer has an id, a click on any row of a page returns an
    action and never raises: the filters let a Like, Announce or Create
    through only with an object, which is all the click handler
    dereferences. *)
Theorem click_never_raises :
  forall (userProfile : option ActorProperties) (V : string) (page : Page)
         (gs : list GroupedActivity),
    profileId userProfile = Some V ->
    groupActivities (filtered userProfile page) = Ok gs ->
    forall g index, In g gs ->
      exists action, handleActivityClick g index = Ok action.
Proof.
  intros userProfile V page gs HV H g index Hg.
  destruct (group_origin _ _ _ H Hg) as [f [r [_ [Hf ->]]]].
  apply (proj1 (In_filtered_iff userProfile page f)) in Hf.
  destruct Hf as [Hf _].
  pose proof (passing_has_object userProfile V f HV Hf) as Hobj.
  unfold handleActivityClick. cbn [group_type group_object groupFrom].
  destruct (String.eqb (type f) CREATE) eqn:Ec.
  { apply String.eqb_eq in Ec. destruct (object f); [eauto|]. exfalso. tauto. }
  destruct (String.eqb (type f) LIKE) eqn:El.
  { apply String.eqb_eq in El. destruct (object f); [eauto|]. exfalso. tauto. }
  destruct (String.eqb (type f) FOLLOW).
  { destruct (1 <? _)%nat; eauto. }
  destruct (String.eqb (type f) REPOST) eqn:Er; [|eauto].
  apply String.eqb_eq in Er. destruct (object f); [eauto|]. exfalso. tauto.
Qed.

Lemma click_never_raises_witness :
  exists action,
    handleActivityClick
      (groupOf LIKE [bob] (Some (mkNote "x" viewer)) "2") 1
    = Ok action.
Proof.
  refine (click_never_raises (Some viewer) "v" {| data := followLikeFollow |}
            _ eq_refl eq_refl _ 1 _).
  simpl. tauto.
Defined.

(** Without a viewer id a Like that has no object passes the filters, and a
    click on its row raises. *)
Example click_raises_without_viewer :
  let idless := {| id := Some "9"; type := LIKE; actor := Some bob; object := None |} in
  exists g,
    groupActivities (filtered None {| data := [idless] |}) = Ok [g]
    /\ handleActivityClick g 0 = TypeError.
Proof. eexists. split; reflexivity. Qed.

Lemma keyed_Ok (l : list (option ActorProperties)) (r : list ActorProperties) :
  keyed l = Ok r -> map Some r = l.
Proof.
  revert r. induction l as [|[a|] l IH]; simpl; intros r H.
  - now injection H as <-.
  - apply bind_Ok in H. destruct H as [rest [Hrest H]]. injection H as <-.
    simpl. now rewrite (IH rest Hrest).
  - discriminate.
Qed.

Lemma keyed_total (l : list (option ActorProperties)) :
  (forall x, In x l -> x <> None) -> exists r, keyed l = Ok r.
Proof.
  induction l as [|[a|] l IH]; simpl; intro H; [eauto| |].
  - destruct IH as [r ->]; [intros x Hx; apply H; now right|]. simpl. eauto.
  - exfalso. apply (H None); [now left | reflexivity].
Qed.

Lemma firstn_In_actor {A : Type} (n : nat) (l : list A) (x : A) :
  In x (firstn n l) -> In x l.
Proof.
  revert l. induction n as [|n IH]; intros [|y l]; simpl; try tauto.
  intros [H|H]; [now left | right; now apply IH].
Qed.

Lemma description_returns (strip : string -> string) (g : GroupedActivity)
  (a : ActorProperties) :
  firstActor g = Some a -> exists nodes, NotificationGroupDescription strip g = Ok nodes.
Proof.
  intro Hf. unfold NotificationGroupDescription, actorText. rewrite Hf. simpl.
  destruct (String.eqb (group_type g) FOLLOW); [eauto|].
  destruct (String.eqb (group_type g) LIKE); [eauto|].
  destruct (String.eqb (group_type g) REPOST); [eauto|].
  destruct (String.eqb (group_type g) CREATE); [|eauto].
  destruct (fullInReplyTo g); eauto.
Qed.

(** X10: the description of a group raises exactly when the group has no
    first actor; and for a sequence whose activities all have their actor,
    every group is described, and its avatars and its expanded list are
    rendered, without an error, open or closed. *)
Theorem rows_render_without_error :
  forall (strip : string -> string) (l : list Activity) (gs : list GroupedActivity),
    (forall g, NotificationGroupDescription strip g = TypeError <-> firstActor g = None)
    /\ (Forall hasActor l -> groupActivities l = Ok gs ->
        forall g open, In g gs ->
          (exists nodes, NotificationGroupDescription strip g = Ok nodes)
          /\ (exists shown, avatarRow open g = Ok shown)
          /\ (exists rows, expandedList open g = Ok rows)).
Proof.
  intros strip l gs. split.
  - intro g. split.
    + intro H. destruct (firstActor g) as [a|] eqn:Hf; [|reflexivity].
      destruct (description_returns strip g a Hf) as [nodes Hn]. congruence.
    + intro Hf. unfold NotificationGroupDescription, actorText. now rewrite Hf.
  - intros Hl H g open Hg.
    destruct (group_origin _ _ _ H Hg) as [f [r [Hb [Hf ->]]]].
    assert (Hall : forall x, In x (actors (groupFrom f (f :: r))) -> x <> None).
    { intros x Hx.
      change (In x (firstOccurrences sameActorId (map actor (f :: r)))) in Hx.
      apply firstOccurrences_incl, in_map_iff in Hx. destruct Hx as [b [<- Hb']].
      rewrite <- Hb in Hb'. apply bearing_incl in Hb'.
      rewrite Forall_forall in Hl. apply Hl. tauto. }
    split; [|split].
    + rewrite Forall_forall in Hl. specialize (Hl f Hf). unfold hasActor in Hl.
      destruct (actor f) as [a|] eqn:Ea; [|congruence].
      apply (description_returns strip _ a).
      unfold firstActor, groupFrom, firstSeenActors. simpl. exact Ea.
    + unfold avatarRow. destruct open; [eauto|]. apply keyed_total.
      intros x Hx. apply Hall. eapply firstn_In_actor; eauto.
    + unfold expandedList. destruct (open && _); [|eauto].
      now apply keyed_total.
Qed.

Lemma rows_render_without_error_witness :
  exists nodes,
    NotificationGroupDescription stripHtml
      (groupOf LIKE [bob] (Some (mkNote "x" viewer)) "2")
    = Ok nodes.
Proof.
  destruct (rows_render_without_error stripHtml followLikeFollow
              [groupOf FOLLOW [alice; carol] None "1";
               groupOf LIKE [bob] (Some (mkNote "x" viewer)) "2"]) as [_ Hrows].
  refine (proj1 (Hrows _ eq_refl _ false _)).
  - repeat constructor; discriminate.
  - simpl. tauto.
Defined.

(** X11: a closed row shows the first actors, five at most, and its badge
    counts exactly the actors it does not show, so shown and counted actors
    add up to the actors of the group; the badge is there only when some actor
    is hidden.  An open row shows no avatar and no badge: it lists all actors
    when there are several, and nothing at all when the group has a single
    actor. *)
Theorem avatars_account_for_actors :
  forall (g : GroupedActivity),
    (forall shown, avatarRow false g = Ok shown ->
       map Some shown = firstn maxAvatars (actors g)
       /\ length shown <= maxAvatars
       /\ length shown + hiddenAvatars false g = length (actors g)
       /\ (overflowCount false g = None <-> length (actors g) <= maxAvatars)
       /\ (forall n, overflowCount false g = Some n -> 0 < n))
    /\ (forall rows, expandedList true g = Ok rows ->
          avatarRow true g = Ok []
          /\ overflowCount true g = None
          /\ (1 < length (actors g) -> map Some rows = actors g)
          /\ (length (actors g) <= 1 -> rows = [])).
Proof.
  intro g. split.
  - intros shown H. unfold avatarRow in H. apply keyed_Ok in H.
    assert (Hlen : length shown = Nat.min maxAvatars (length (actors g))).
    { rewrite <- (length_map Some shown), H. apply length_firstn. }
    unfold hiddenAvatars, overflowCount. rewrite andb_true_r.
    destruct (maxAvatars <? length (actors g))%nat eqn:E.
    + apply Nat.ltb_lt in E.
      split; [exact H|]. split; [lia|]. split; [lia|]. split.
      * split; [discriminate | lia].
      * intros n Hn. injection Hn as <-. lia.
    + apply Nat.ltb_ge in E.
      split; [exact H|]. split; [lia|]. split; [lia|]. split.
      * split; [lia | reflexivity].
      * intros n Hn. discriminate.
  - intros rows H. unfold expandedList in H. simpl in H.
    split; [reflexivity|]. split.
    { unfold overflowCount. now rewrite andb_false_r. }
    destruct (1 <? length (actors g))%nat eqn:E.
    + apply Nat.ltb_lt in E. apply keyed_Ok in H. split; [tauto | lia].
    + apply Nat.ltb_ge in E. injection H as <-. split; [lia | reflexivity].
Qed.

Lemma avatars_account_for_actors_witness :
  length [alice; bob] + hiddenAvatars false aliceAndBob = length (actors aliceAndBob).
Proof.
  exact (proj1 (proj2 (proj2
           (proj1 (avatars_account_for_actors aliceAndBob) [alice; bob] eq_refl)))).
Defined.

Lemma falsy_orEmpty (x : jsString) : truthy x = false -> orEmpty x = EmptyString.
Proof.
  intro H. apply falsy_iff in H. destruct H as [->| ->]; reflexivity.
Qed.

(** X12: a Like or Announce row shows the content of its object below the
    description exactly when the object has no name (or an empty one) and a
    non-empty content, so a row never shows both a title in its description
    and a preview; a Create row whose description is rendered always shows
    the preview, and one that answers a bare reference shows the preview
    without any description. *)
Theorem title_or_preview :
  forall (strip : string -> string) (g : GroupedActivity),
    (group_type g = LIKE \/ group_type g = REPOST ->
       (showsPreview g = true <->
          truthy (groupObjectName g) = false /\ truthy (groupObjectContent g) = true)
       /\ (showsPreview g = true -> objectName g = EmptyString)
       /\ (objectName g <> EmptyString -> showsPreview g = false))
    /\ (group_type g = CREATE ->
          (forall nodes, NotificationGroupDescription strip g = Ok nodes ->
                         nodes <> [] -> showsPreview g = true)
          /\ (forall o url, group_object g = Some o ->
                            object_inReplyTo o = ReplyReference url ->
                            url <> EmptyString ->
                            showsPreview g = true
                            /\ forall nodes,
                                 NotificationGroupDescription strip g = Ok nodes ->
                                 nodes = [])).
Proof.
  intros strip g. split.
  - intro Ht.
    assert (Hiff : showsPreview g = true <->
                   truthy (groupObjectName g) = false
                   /\ truthy (groupObjectContent g) = true).
    { unfold showsPreview. destruct Ht as [Ht|Ht]; rewrite Ht;
        cbn [String.eqb Ascii.eqb Bool.eqb andb orb CREATE LIKE REPOST];
        destruct (truthy (groupObjectName g)), (truthy (groupObjectContent g));
        simpl; intuition discriminate. }
    assert (Hname : showsPreview g = true -> objectName g = EmptyString).
    { intro H. apply Hiff in H. destruct H as [Hn _].
      unfold objectName. unfold groupObjectName in Hn.
      destruct (group_object g); [now apply falsy_orEmpty | reflexivity]. }
    split; [exact Hiff|]. split; [exact Hname|].
    intro Hne. destruct (showsPreview g); [|reflexivity].
    exfalso. now apply Hne, Hname.
  - intro Ht. rewrite (description_create strip g Ht). split.
    + intros nodes H Hne. apply bind_Ok in H. destruct H as [names [_ H]].
      unfold showsPreview. rewrite Ht.
      cbn [String.eqb Ascii.eqb Bool.eqb andb orb CREATE LIKE REPOST].
      unfold fullInReplyTo in H. unfold inReplyToTruthy.
      destruct (group_object g) as [o|]; [|injection H as <-; congruence].
      destruct (object_inReplyTo o); try reflexivity;
        injection H as <-; congruence.
    + intros o url Ho Hr Hne. split.
      * unfold showsPreview, inReplyToTruthy. rewrite Ht, Ho, Hr.
        cbn [String.eqb Ascii.eqb Bool.eqb andb orb CREATE LIKE REPOST].
        apply String.eqb_neq in Hne. now rewrite Hne.
      * intros nodes H. apply bind_Ok in H. destruct H as [names [_ H]].
        unfold fullInReplyTo in H. rewrite Ho, Hr in H. now injection H as <-.
Qed.

Lemma title_or_preview_witness :
  showsPreview (groupOf LIKE [bob] (Some (mkNote "x" viewer)) "2") = false.
Proof.
  destruct (proj1 (title_or_preview stripHtml
                     (groupOf LIKE [bob] (Some (mkNote "x" viewer)) "2"))
              (or_introl eq_refl)) as [Hiff _].
  destruct (showsPreview (groupOf LIKE [bob] (Some (mkNote "x" viewer)) "2")) eqn:E;
    [|reflexivity].
  destruct (proj1 Hiff eq_refl) as [_ Hc]. discriminate.
Defined.

(** X13: the empty-state message and the list are never shown together; the
    message is shown only when loading is over and the fetched pages gave no
    group at all, and never while there is no data, when five placeholder
    rows are listed instead. *)
Theorem empty_view_only_when_loaded :
  forall (userProfile : option ActorProperties) (queryData : option (list Page))
         (entries : list Entry) (isLoading : bool),
    groupedActivities userProfile queryData = Ok entries ->
    (showsEmptyView isLoading entries && showsList entries = false)
    /\ (showsEmptyView isLoading entries = true ->
          isLoading = false
          /\ exists pages, queryData = Some pages
                           /\ groupPages userProfile pages = Ok [])
    /\ (queryData = None ->
          length entries = 5 /\ showsList entries = true
          /\ showsEmptyView isLoading entries = false).
Proof.
  intros userProfile queryData entries isLoading H.
  unfold showsEmptyView, showsList. split; [|split].
  - destruct entries; simpl; [apply andb_false_r|].
    now rewrite andb_false_r.
  - intro He. apply andb_true_iff in He. destruct He as [Hl He].
    apply negb_true_iff in Hl. split; [exact Hl|].
    apply Nat.eqb_eq in He.
    destruct queryData as [pages|]; simpl in H.
    + exists pages. split; [reflexivity|].
      apply bind_Ok in H. destruct H as [gs [Hgs H]]. injection H as <-.
      rewrite length_map in He. destruct gs; [exact Hgs | discriminate].
    + injection H as <-. discriminate.
  - intros ->. simpl in H. injection H as <-. simpl.
    now rewrite andb_false_r.
Qed.

Lemma empty_view_only_when_loaded_witness :
  showsEmptyView false [] = true
  /\ exists pages, Some [ {| data := [] |} ] = Some pages
                   /\ groupPages (Some viewer) pages = Ok [].
Proof.
  split; [reflexivity|].
  exact (proj2 (proj1 (proj2
           (empty_view_only_when_loaded (Some viewer) (Some [ {| data := [] |} ])
              [] false eq_refl)) eq_refl)).
Defined.

(** ** What the rows of a page are about *)

Lemma passing_tests (userProfile : option ActorProperties) (a : Activity) :
  passesFilters userProfile a = true ->
  (type a = LIKE ->
     actorId a <> profileId userProfile /\ attributedToId a = profileId userProfile)
  /\ (type a = REPOST -> attributedToId a = profileId userProfile)
  /\ (type a = CREATE ->
        actorId a <> profileId userProfile
        /\ inReplyToAttributedToId a = profileId userProfile).
Proof.
  intro Hp. unfold passesFilters in Hp.
  repeat (apply andb_true_iff in Hp; destruct Hp as [Hp ?]).
  unfold notOwnLike, likeOfOwnPost, repostOfOwnPost, replyToOwnPost, notOwnCreate in *.
  split; [|split]; intro Ht; rewrite Ht in *;
    cbn [String.eqb Ascii.eqb Bool.eqb andb CREATE LIKE REPOST] in *;
    rewrite <- ?strictEq_neq, <- ?strictEq_eq.
  - destruct (strictEq (actorId a) (profileId userProfile)),
      (strictEq (attributedToId a) (profileId userProfile)); simpl in *;
      try discriminate; now split.
  - destruct (strictEq (attributedToId a) (profileId userProfile)); simpl in *;
      try discriminate; reflexivity.
  - destruct (strictEq (actorId a) (profileId userProfile)),
      (strictEq (inReplyToAttributedToId a) (profileId userProfile)); simpl in *;
      try discriminate; now split.
Qed.



(** X15: the viewer is never among the actors of a Create row, nor of a Like
    row whose object has a non-empty id: every actor listed there has an id
    different from the one the viewer profile yields. *)
Theorem viewer_is_not_an_actor :
  forall (userProfile : option ActorProperties) (page : Page)
         (gs : list GroupedActivity) (g : GroupedActivity) (x : ActorProperties),
    groupActivities (filtered userProfile page) = Ok gs -> In g gs ->
    group_type g = CREATE \/ (group_type g = LIKE /\ truthy (groupObjectId g) = true) ->
    In (Some x) (actors g) ->
    actor_id x <> profileId userProfile.
Proof.
  intros userProfile page gs g x H Hg Ht Hx.
  destruct (group_origin _ _ _ H Hg) as [f [r [Hb [Hf ->]]]].
  change (In (Some x) (firstOccurrences sameActorId (map actor (f :: r)))) in Hx.
  apply firstOccurrences_incl, in_map_iff in Hx. destruct Hx as [b [Eb Hbin]].
  rewrite <- Hb in Hbin. apply bearing_incl in Hbin. destruct Hbin as [Hbf Hk].
  apply In_filtered_iff in Hbf. destruct Hbf as [Hp _].
  destruct (passing_tests userProfile b Hp) as [Hl [_ Hc]].
  assert (Hact : actorId b = actor_id x) by (unfold actorId; now rewrite Eb).
  cbn [group_type groupFrom] in Ht. destruct Ht as [Ht|[Ht Hid]].
  - apply (create_key_shared f b Ht) in Hk. destruct Hk as [Tb _].
    destruct (Hc Tb) as [Hne _]. now rewrite <- Hact.
  - unfold groupObjectId in Hid. cbn [group_object groupFrom] in Hid.
    apply truthy_iff in Hid. destruct Hid as [i [Hi Hne]].
    apply (like_key_shared f b i Ht Hi Hne) in Hk. destruct Hk as [Tb _].
    destruct (Hl Tb) as [Hna _]. now rewrite <- Hact.
Qed.

Lemma viewer_is_not_an_actor_witness :
  actor_id bob <> Some "v".
Proof.
  refine (viewer_is_not_an_actor (Some viewer) {| data := followLikeFollow |}
            [groupOf FOLLOW [alice; carol] None "1";
             groupOf LIKE [bob] (Some (mkNote "x" viewer)) "2"]
            (groupOf LIKE [bob] (Some (mkNote "x" viewer)) "2") bob
            eq_refl _ (or_intror (conj eq_refl eq_refl)) _).
  - simpl. tauto.
  - simpl. tauto.
Defined.

(** A Like row under the empty key can list the viewer: an Announce by the
    viewer without object id joins the group of a Like without object id. *)
Example viewer_in_catch_all_group :
  let owned := {| object_id := None; object_type := Some "Note"; object_name := None;
                  object_content := None; object_attributedTo := Some viewer;
                  object_inReplyTo := NoReply |} in
  groupActivities
    (filtered (Some viewer)
       {| data := [mkLike "1" owned bob; mkRepost "2" owned viewer] |})
  = Ok [ {| group_type := LIKE; actors := [Some bob; Some viewer];
            group_object := Some owned; group_id := Some "1" |} ].
Proof. reflexivity. Qed.

(** ** The profile view and the layout *)

(** X16: whatever handle the route carries (none, empty or not), the posts
    tab and the two follows tabs query the very account the profile header
    queries; the two ways the tabs turn an empty handle into [me] agree. *)
Theorem tabs_query_the_profile_account :
  forall (paramsHandle : jsString),
    postsQueryHandle (tabHandle paramsHandle) = accountHandle paramsHandle
    /\ followsQueryHandle (tabHandle paramsHandle) = accountHandle paramsHandle
    /\ (forall handle, postsQueryHandle handle = followsQueryHandle handle)
    /\ (accountHandle paramsHandle <> EmptyString).
Proof.
  intro p.
  assert (E : forall handle, postsQueryHandle handle = followsQueryHandle handle).
  { intro handle. unfold postsQueryHandle, followsQueryHandle.
    now destruct (String.eqb handle EmptyString). }
  unfold accountHandle, tabHandle. destruct (truthy p) eqn:T.
  - apply truthy_iff in T. destruct T as [s [-> Hs]]. simpl.
    apply String.eqb_neq in Hs.
    unfold postsQueryHandle, followsQueryHandle. rewrite Hs. simpl.
    apply String.eqb_neq in Hs. repeat split; trivial.
  - repeat split; trivial. discriminate.
Qed.

(** X17: the layout renders nothing while the user is loading or missing,
    redirects to the welcome page when the user is not onboarded, and
    otherwise renders the main grid in a scrolling container; the onboarding
    screen of its last branch is never rendered, and the class of the
    container never interpolates [false]. *)
Theorem layout_never_shows_onboarding :
  forall (User : Type) (isLoading : bool) (currentUser : option User)
         (isOnboarded isNewNoteModalOpen : bool),
    (Layout isLoading currentUser isOnboarded isNewNoteModalOpen = RenderNull
     <-> isLoading = true \/ currentUser = None)
    /\ (forall to,
          Layout isLoading currentUser isOnboarded isNewNoteModalOpen = NavigateTo to
          -> to = "/welcome" /\ isOnboarded = false /\ isLoading = false
             /\ currentUser <> None)
    /\ (forall className body newNoteOpen,
          Layout isLoading currentUser isOnboarded isNewNoteModalOpen
          = Container className body newNoteOpen
          -> body = MainGrid
             /\ className = "h-screen w-full overflow-y-auto"
             /\ newNoteOpen = isNewNoteModalOpen
             /\ isOnboarded = true /\ isLoading = false /\ currentUser <> None).
Proof.
  intros User isLoading currentUser isOnboarded isNewNoteModalOpen.
  unfold Layout.
  destruct isLoading, currentUser as [u|], isOnboarded; simpl;
    (split; [split; [intro H; try discriminate; tauto
                    | intros [H|H]; try discriminate; reflexivity]
            | split; [intros to H; try discriminate;
                      injection H as <-; repeat split; discriminate
                     | intros className body newNoteOpen H; try discriminate;
                       injection H as <- <- <-; repeat split; discriminate]]).
Qed.

(** Rows of two pages can share a state key: the same Follow fetched on two
    pages gives two rows that open and close together. *)
Example rows_of_two_pages_share_a_key :
  exists g1 g2,
    groupPages (Some viewer)
      [ {| data := [mkFollow "1" alice] |}; {| data := [mkFollow "1" alice] |} ]
    = Ok [g1; g2]
    /\ stateKey g1 0 = stateKey g2 1.
Proof. do 2 eexists. split; reflexivity. Qed.
